(** * Cluster VPC discovery and security-group convergence

    A shallow embedding of [pkg/providers/aws/cluster_vpc.go] and the
    properties its specification states about it.

    The Go file talks to three collaborators: the EC2 API ([ec2iface.EC2API]),
    the cluster client (through [resources.GetClusterID] and
    [BuildInfraName]) and the clock (through [wait.PollImmediate]).  Each is an
    interface here; a function of the file is a computation that threads the
    collaborators' state and records every call it makes, with its reply, in a
    trace. *)

From Stdlib Require Import List String Ascii ZArith Bool Lia Arith DecimalString.
Import ListNotations.
Local Open Scope string_scope.
Local Open Scope list_scope.

(* ===================================================================== *)
(** ** Errors and results *)
(* ===================================================================== *)

(** Go's [error] values as the file builds them: [errorUtil.New],
    [errorUtil.Wrap], the sentinel [wait.ErrWaitTimeout], and whatever a
    collaborator hands back. *)
Inductive error : Type :=
| ExternalError (msg : string)
| ErrWaitTimeout
| New (msg : string)
| Wrap (cause : error) (msg : string).

(** A Go result pair [(v, err)]: [Ok v] is [(v, nil)], [Err e] is
    [(zero, e)]. *)
Inductive Result (A : Type) : Type :=
| Ok (a : A)
| Err (e : error).
Arguments Ok {A} a.
Arguments Err {A} e.

Definition isOk {A} (r : Result A) : bool :=
  match r with Ok _ => true | Err _ => false end.

(* ===================================================================== *)
(** ** The EC2 data the file reads and writes *)
(* ===================================================================== *)

(** The SDK's structs hold pointers.  A field the file dereferences without
    a nil check ([*tag.Value], [*sub.VpcId], [*sec.GroupName], ...) is a plain
    value here: the provider always fills it, and a nil there is a Go panic
    that lies outside this model.  Fields that only [reflect.DeepEqual] looks
    at keep their pointer shape: a pointer is an [option], a slice is [None]
    when nil and [Some l] otherwise, since DeepEqual tells the two apart. *)

Record Tag := { Key : string; Value : string }.

Record Vpc := {
  Vpc_VpcId : string;
  CidrBlock : string;
  Vpc_Tags : list Tag
}.

Record Subnet := {
  SubnetId : string;
  Subnet_VpcId : string;
  Subnet_Tags : list Tag
}.

Definition slice (A : Type) := option (list A).

Record IpRange := { CidrIp : option string; IpRange_Description : option string }.
Record Ipv6Range := { CidrIpv6 : option string; Ipv6Range_Description : option string }.
Record PrefixListId := { PrefixListId_Description : option string; PrefixListId_Id : option string }.
Record UserIdGroupPair := {
  UserIdGroupPair_Description : option string;
  UserIdGroupPair_GroupId : option string;
  UserIdGroupPair_GroupName : option string;
  PeeringStatus : option string;
  UserId : option string;
  UserIdGroupPair_VpcId : option string;
  VpcPeeringConnectionId : option string
}.

Record IpPermission := {
  FromPort : option Z;
  IpProtocol : option string;
  IpRanges : slice (option IpRange);
  Ipv6Ranges : slice (option Ipv6Range);
  PrefixListIds : slice (option PrefixListId);
  ToPort : option Z;
  UserIdGroupPairs : slice (option UserIdGroupPair)
}.

Record SecurityGroup := {
  Description : string;
  GroupId : string;
  GroupName : string;
  IpPermissions : list (option IpPermission);
  SecurityGroup_VpcId : string
}.

Record DescribeVpcsOutput := { Vpcs : list Vpc }.
Record DescribeSubnetsOutput := { Subnets : list Subnet }.
Record DescribeSecurityGroupsOutput := { SecurityGroups : list SecurityGroup }.

Record CreateSecurityGroupInput := {
  CreateSecurityGroupInput_Description : string;
  CreateSecurityGroupInput_GroupName : string;
  CreateSecurityGroupInput_VpcId : string
}.

Record AuthorizeSecurityGroupIngressInput := {
  AuthorizeSecurityGroupIngressInput_GroupId : string;
  AuthorizeSecurityGroupIngressInput_IpPermissions : list (option IpPermission)
}.

(** Inputs of the interface's other methods on groups, subnets and VPCs,
    cut down to what identifies the resource. *)
Record DeleteSecurityGroupInput := { DeleteSecurityGroupInput_GroupId : string }.
Record RevokeSecurityGroupIngressInput := {
  RevokeSecurityGroupIngressInput_GroupId : string;
  RevokeSecurityGroupIngressInput_IpPermissions : list (option IpPermission)
}.
Record CreateSubnetInput := {
  CreateSubnetInput_CidrBlock : string;
  CreateSubnetInput_VpcId : string
}.
Record DeleteSubnetInput := { DeleteSubnetInput_SubnetId : string }.
Record ModifySubnetAttributeInput := { ModifySubnetAttributeInput_SubnetId : string }.
Record CreateVpcInput := { CreateVpcInput_CidrBlock : string }.
Record DeleteVpcInput := { DeleteVpcInput_VpcId : string }.
Record ModifyVpcAttributeInput := { ModifyVpcAttributeInput_VpcId : string }.

(** *** [reflect.DeepEqual] on permissions

    DeepEqual on two pointers compares what they point to, field by field,
    and so is equality of the modelled values. *)

Definition option_eq_dec {A} (d : forall x y : A, {x = y} + {x <> y})
  (x y : option A) : {x = y} + {x <> y}.
Proof. decide equality. Defined.

Definition IpRange_eq_dec (x y : IpRange) : {x = y} + {x <> y}.
Proof. decide equality; apply option_eq_dec, string_dec. Defined.

Definition Ipv6Range_eq_dec (x y : Ipv6Range) : {x = y} + {x <> y}.
Proof. decide equality; apply option_eq_dec, string_dec. Defined.

Definition PrefixListId_eq_dec (x y : PrefixListId) : {x = y} + {x <> y}.
Proof. decide equality; apply option_eq_dec, string_dec. Defined.

Definition UserIdGroupPair_eq_dec (x y : UserIdGroupPair) : {x = y} + {x <> y}.
Proof. decide equality; apply option_eq_dec, string_dec. Defined.

Definition slice_eq_dec {A} (d : forall x y : A, {x = y} + {x <> y})
  (x y : slice (option A)) : {x = y} + {x <> y}.
Proof. apply option_eq_dec, list_eq_dec, option_eq_dec, d. Defined.

Definition IpPermission_eq_dec (x y : IpPermission) : {x = y} + {x <> y}.
Proof.
  decide equality;
    first [ apply (slice_eq_dec UserIdGroupPair_eq_dec)
          | apply (slice_eq_dec PrefixListId_eq_dec)
          | apply (slice_eq_dec Ipv6Range_eq_dec)
          | apply (slice_eq_dec IpRange_eq_dec)
          | apply option_eq_dec, Z.eq_dec
          | apply option_eq_dec, string_dec ].
Defined.

Definition DeepEqual (x y : option IpPermission) : bool :=
  if option_eq_dec IpPermission_eq_dec x y then true else false.

(* ===================================================================== *)
(** ** Collaborators *)
(* ===================================================================== *)

(** [context.Context], as far as a callee can observe it: whether its
    deadline has passed or it was cancelled. *)
Record Context := { Done : bool }.

(** [time.Duration] counts nanoseconds. *)
Definition Duration := Z.
Definition Second : Duration := 1000000000%Z.
Definition Minute : Duration := (60 * Second)%Z.

(** [ec2iface.EC2API]: the five methods the file calls (the three listing
    methods always with an empty input), and the methods of the interface
    that delete a group, take permissions away from it, or create, change or
    delete a subnet or a VPC, which the file has at hand as well. *)
Class EC2API (St : Type) := {
  DescribeVpcs : St -> Result DescribeVpcsOutput * St;
  DescribeSubnets : St -> Result DescribeSubnetsOutput * St;
  DescribeSecurityGroups : St -> Result DescribeSecurityGroupsOutput * St;
  CreateSecurityGroup : CreateSecurityGroupInput -> St -> Result unit * St;
  AuthorizeSecurityGroupIngress :
    AuthorizeSecurityGroupIngressInput -> St -> Result unit * St;
  DeleteSecurityGroup : DeleteSecurityGroupInput -> St -> Result unit * St;
  RevokeSecurityGroupIngress :
    RevokeSecurityGroupIngressInput -> St -> Result unit * St;
  CreateSubnet : CreateSubnetInput -> St -> Result unit * St;
  DeleteSubnet : DeleteSubnetInput -> St -> Result unit * St;
  ModifySubnetAttribute : ModifySubnetAttributeInput -> St -> Result unit * St;
  CreateVpc : CreateVpcInput -> St -> Result unit * St;
  DeleteVpc : DeleteVpcInput -> St -> Result unit * St;
  ModifyVpcAttribute : ModifyVpcAttributeInput -> St -> Result unit * St
}.

(** The cluster client [c] as the file uses it: only through
    [resources.GetClusterID] and [BuildInfraName], both defined elsewhere in
    the repository, and the constant [DefaultAwsIdentifierLength]. *)
Class Cluster (St : Type) := {
  GetClusterID : Context -> St -> Result string * St;
  BuildInfraName : Context -> string -> nat -> St -> Result string * St;
  DefaultAwsIdentifierLength : nat
}.

(** The passing of time, as [wait.PollImmediate] experiences it. *)
Class Clock (St : Type) := {
  Sleep : Duration -> St -> St
}.

(** A call made to a collaborator, with the reply it got. *)
Inductive Event : Type :=
| EvGetClusterID (ctx : Context) (r : Result string)
| EvBuildInfraName (ctx : Context) (postfix : string) (n : nat) (r : Result string)
| EvDescribeVpcs (r : Result DescribeVpcsOutput)
| EvDescribeSubnets (r : Result DescribeSubnetsOutput)
| EvDescribeSecurityGroups (r : Result DescribeSecurityGroupsOutput)
| EvCreateSecurityGroup (input : CreateSecurityGroupInput) (r : Result unit)
| EvAuthorizeSecurityGroupIngress
    (input : AuthorizeSecurityGroupIngressInput) (r : Result unit)
| EvDeleteSecurityGroup (input : DeleteSecurityGroupInput) (r : Result unit)
| EvRevokeSecurityGroupIngress
    (input : RevokeSecurityGroupIngressInput) (r : Result unit)
| EvCreateSubnet (input : CreateSubnetInput) (r : Result unit)
| EvDeleteSubnet (input : DeleteSubnetInput) (r : Result unit)
| EvModifySubnetAttribute (input : ModifySubnetAttributeInput) (r : Result unit)
| EvCreateVpc (input : CreateVpcInput) (r : Result unit)
| EvDeleteVpc (input : DeleteVpcInput) (r : Result unit)
| EvModifyVpcAttribute (input : ModifyVpcAttributeInput) (r : Result unit)
| EvSleep (d : Duration).

(** The provider calls that change provider state: all but the listings. *)
Definition isMutating (ev : Event) : bool :=
  match ev with
  | EvGetClusterID _ _ | EvBuildInfraName _ _ _ _
  | EvDescribeVpcs _ | EvDescribeSubnets _ | EvDescribeSecurityGroups _
  | EvSleep _ => false
  | _ => true
  end.

Definition isCreate (ev : Event) : bool :=
  match ev with EvCreateSecurityGroup _ _ => true | _ => false end.

Definition mutations (tr : list Event) : list Event := filter isMutating tr.

(** Total time a trace spends sleeping. *)
Fixpoint slept (tr : list Event) : Duration :=
  match tr with
  | [] => 0%Z
  | EvSleep d :: tr' => (d + slept tr')%Z
  | _ :: tr' => slept tr'
  end.

(* ===================================================================== *)
(** ** Computations: state passing with a trace *)
(* ===================================================================== *)

Definition M (St A : Type) : Type := St -> A * St * list Event.

Definition ret {St A} (a : A) : M St A := fun s => (a, s, []).

Definition bind {St A B} (m : M St A) (k : A -> M St B) : M St B :=
  fun s =>
    let '(a, s1, t1) := m s in
    let '(b, s2, t2) := k a s1 in
    (b, s2, t1 ++ t2).

Declare Scope m_scope.
Delimit Scope m_scope with M.
Notation "x <- c ;; k" := (bind c (fun x => k))
  (at level 100, c at next level, right associativity) : m_scope.
Notation "' p <- c ;; k" := (bind c (fun x => let p := x in k))
  (at level 100, p pattern, c at next level, right associativity) : m_scope.

Definition result_of {St A} (o : A * St * list Event) : A := fst (fst o).
Definition state_of {St A} (o : A * St * list Event) : St := snd (fst o).
Definition trace_of {St A} (o : A * St * list Event) : list Event := snd o.

(** A collaborator call, logged with its reply. *)
Definition call {St A} (f : St -> A * St) (ev : A -> Event) : M St A :=
  fun s => let '(a, s') := f s in (a, s', [ev a]).

(** A computation that issues no mutating provider call, whatever the
    state it starts from. *)
Definition readonly {St A} (m : M St A) : Prop :=
  forall s, mutations (trace_of (m s)) = [].

(** A computation whose final state is always related to its initial state
    by [R]. *)
Definition preserves {St A} (R : St -> St -> Prop) (m : M St A) : Prop :=
  forall s, R s (state_of (m s)).

(* ===================================================================== *)
(** ** [regexp]: the fragment of Go's regular expressions the file uses *)
(* ===================================================================== *)

Module regexp.

(** Go's [\w] is the ASCII class [[0-9A-Za-z_]]; every byte of a multi-byte
    rune is at least 128 and so outside it, which lets the matcher below work
    on bytes. *)
Definition isWordChar (c : ascii) : bool :=
  let n := nat_of_ascii c in
  ((48 <=? n) && (n <=? 57) || (65 <=? n) && (n <=? 90)
   || (97 <=? n) && (n <=? 122) || (n =? 95))%nat.

(** A compiled pattern is a sequence of instructions. *)
Inductive Inst : Type :=
| WordBoundary            (* \b  *)
| WordClass               (* \w  *)
| WordStar                (* \w* *)
| Char (c : ascii).       (* a literal word character *)

Definition Regexp := list Inst.

Definition isQuantifier (c : ascii) : bool :=
  existsb (Ascii.eqb c) (list_ascii_of_string "*+?{").

Definition quantified (s : list ascii) : bool :=
  match s with
  | c :: _ => isQuantifier c
  | [] => false
  end.

(** The parser accepts [\b], [\w], [\w*], literal word characters and
    capturing groups that carry no quantifier (a group then changes nothing
    about whether a string matches); it rejects everything else. *)
Fixpoint parse (depth : nat) (s : list ascii) : option Regexp :=
  match s with
  | [] => if Nat.eqb depth 0 then Some [] else None
  | "\"%char :: "b"%char :: rest => option_map (cons WordBoundary) (parse depth rest)
  | "\"%char :: "w"%char :: "*"%char :: rest =>
      if quantified rest then None else option_map (cons WordStar) (parse depth rest)
  | "\"%char :: "w"%char :: rest =>
      if quantified rest then None else option_map (cons WordClass) (parse depth rest)
  | "("%char :: rest => parse (S depth) rest
  | ")"%char :: rest =>
      match depth with
      | O => None
      | S d => if quantified rest then None else parse d rest
      end
  | c :: rest =>
      if isWordChar c && negb (quantified rest)
      then option_map (cons (Char c)) (parse depth rest)
      else None
  end.

Definition Compile (expr : string) : Result Regexp :=
  match parse 0 (list_ascii_of_string expr) with
  | Some re => Ok re
  | None => Err (ExternalError ("error parsing regexp: " ++ expr))
  end.

Definition isWordOpt (c : option ascii) : bool :=
  match c with
  | Some c => isWordChar c
  | None => false
  end.

(** The byte before a position that lies [w] after a position preceded by
    [prev]. *)
Definition lastOr (prev : option ascii) (w : list ascii) : option ascii :=
  fold_left (fun _ c => Some c) w prev.

(** [\b]: exactly one of the bytes before and after the position is a word
    character (the ends of the text count as non-word). *)
Definition atBoundary (prev : option ascii) (s : list ascii) : bool :=
  xorb (isWordOpt prev) (isWordOpt (hd_error s)).

(** Does the pattern match a prefix of [s], given the byte before [s]? *)
Fixpoint matchHere (re : Regexp) : option ascii -> list ascii -> bool :=
  match re with
  | [] => fun _ _ => true
  | WordBoundary :: re' =>
      fun prev s => atBoundary prev s && matchHere re' prev s
  | WordClass :: re' =>
      fun _ s =>
        match s with
        | c :: s' => isWordChar c && matchHere re' (Some c) s'
        | [] => false
        end
  | Char a :: re' =>
      fun _ s =>
        match s with
        | c :: s' => Ascii.eqb c a && matchHere re' (Some c) s'
        | [] => false
        end
  | WordStar :: re' =>
      fix star (prev : option ascii) (s : list ascii) : bool :=
        matchHere re' prev s
        || match s with
           | c :: s' => isWordChar c && star (Some c) s'
           | [] => false
           end
  end.

(** An unanchored match: the pattern matches starting at some position. *)
Fixpoint search (re : Regexp) (prev : option ascii) (s : list ascii) : bool :=
  matchHere re prev s
  || match s with
     | c :: s' => search re (Some c) s'
     | [] => false
     end.

Definition MatchString (re : Regexp) (s : string) : bool :=
  search re None (list_ascii_of_string s).

End regexp.

(* ===================================================================== *)
(** ** [wait.PollImmediate] *)
(* ===================================================================== *)

Module wait.
Section Poll.
Context {St : Type} `{Clock St}.

Definition sleep (d : Duration) : M St unit :=
  fun s => (tt, Sleep d s, [EvSleep d]).

(** A condition function is a Go closure; [V] is the value of the variables
    it captures and may assign. *)
Definition ConditionFunc (V : Type) : Type :=
  V -> M St (V * (bool * option error)).

(** Modelled from the spec: the loop of the package over the ticks of its
    poller.  One tick per interval: wait, then try the condition.  When the
    budget is used up the poller closes its channel; the loop of the library
    tries the condition once more on the closed channel, without a wait, and
    only then reports [ErrWaitTimeout]. *)
Fixpoint poll {V} (ticks : nat) (interval : Duration)
  (condition : ConditionFunc V) (v : V) : M St (V * option error) :=
  match ticks with
  | O =>
      ('(v', (done, err)) <- condition v ;;
       match err with
       | Some e => ret (v', Some e)
       | None => if done then ret (v', None)
                 else ret (v', Some ErrWaitTimeout)
       end)%M
  | S ticks' =>
      (_ <- sleep interval ;;
       '(v', (done, err)) <- condition v ;;
       match err with
       | Some e => ret (v', Some e)
       | None => if done then ret (v', None)
                 else poll ticks' interval condition v'
       end)%M
  end.

(** Modelled from the spec: the package [k8s.io/apimachinery/pkg/util/wait]
    is a library outside the repository and not among the sources.
    [PollImmediate interval timeout condition] tries the condition at once
    and then once per [interval] until it reports done, returns an error, or
    [timeout] has elapsed, in which case the result is [ErrWaitTimeout].  Time
    is virtual: the ticks that fit into the budget are [timeout / interval],
    the last of them at the very end of the budget. *)
Definition PollImmediate {V} (interval timeout : Duration)
  (condition : ConditionFunc V) (v : V) : M St (V * option error) :=
  ('(v', (done, err)) <- condition v ;;
   match err with
   | Some e => ret (v', Some e)
   | None => if done then ret (v', None)
             else poll (Z.to_nat (timeout / interval)) interval condition v'
   end)%M.

End Poll.
End wait.

(* ===================================================================== *)
(** ** The file itself *)
(* ===================================================================== *)

Definition defaultSubnetPostfix : string := "subnet-group".
Definition defaultSecurityGroupPostfix : string := "security-group".

(** The pattern of [GetPrivateSubnetIDS], a Go string literal with its
    escapes resolved. *)
Definition regexpStr : string := "\b(\w*private\w*)\b".

(** The permission [SetupSecurityGroup] wants in place: every protocol,
    from the VPC's own address range. *)
Definition ipPermission (cidr : string) : IpPermission :=
  {| FromPort := None;
     IpProtocol := Some "-1";
     IpRanges := Some [Some {| CidrIp := Some cidr; IpRange_Description := None |}];
     Ipv6Ranges := None;
     PrefixListIds := None;
     ToPort := None;
     UserIdGroupPairs := None |}.

(** The loop of [getVpc]: every tag of every VPC is looked at, and a match
    overwrites [foundVPC]. *)
Definition getVpc_loop (clusterID : string) (vpcs : list Vpc) : option Vpc :=
  fold_left
    (fun foundVPC vpc =>
       fold_left
         (fun foundVPC tag =>
            if Value tag =? clusterID ++ "-vpc" then Some vpc else foundVPC)
         (Vpc_Tags vpc) foundVPC)
    vpcs None.

(** The loop of [getSecurityGroup]: the first group of that name, then
    [break]. *)
Definition getSecurityGroup_loop (secName : string)
  (secGroups : list SecurityGroup) : option SecurityGroup :=
  find (fun sec => GroupName sec =? secName) secGroups.

(** The loop of [GetVPCSubnets]. *)
Definition GetVPCSubnets_loop (foundVPC : Vpc) (subs : list Subnet) : list Subnet :=
  fold_left
    (fun associatedSubs sub =>
       if Subnet_VpcId sub =? Vpc_VpcId foundVPC
       then associatedSubs ++ [sub] else associatedSubs)
    subs [].

(** The two loops of [GetAllSubnetIDS] and [GetPrivateSubnetIDS] that turn
    subnets into identifiers. *)
Definition subIDs_loop (subs : list Subnet) : list string :=
  fold_left (fun subIDs sub => subIDs ++ [SubnetId sub]) subs [].

(** The nested loop of [GetPrivateSubnetIDS]: one [append] per matching
    tag. *)
Definition privateSubs_loop (anReg : regexp.Regexp) (subs : list Subnet) : list Subnet :=
  fold_left
    (fun privateSubs sub =>
       fold_left
         (fun privateSubs tags =>
            if regexp.MatchString anReg (Value tags)
            then privateSubs ++ [sub] else privateSubs)
         (Subnet_Tags sub) privateSubs)
    subs [].

Section Source.
Context {St : Type} `{EC2API St} `{Cluster St} `{Clock St}.
Local Open Scope m_scope.

Definition getSecurityGroup (secName : string) : M St (Result (option SecurityGroup)) :=
  secGroups <- call DescribeSecurityGroups EvDescribeSecurityGroups ;;
  match secGroups with
  | Err err =>
      ret (Err (Wrap err "failed to return information about security groups"))
  | Ok secGroups =>
      ret (Ok (getSecurityGroup_loop secName (SecurityGroups secGroups)))
  end.

Definition getVpc (ctx : Context) : M St (Result (option Vpc)) :=
  vpcs <- call DescribeVpcs EvDescribeVpcs ;;
  match vpcs with
  | Err err => ret (Err (Wrap err "error getting subnets"))
  | Ok vpcs =>
      clusterID <- call (GetClusterID ctx) (EvGetClusterID ctx) ;;
      match clusterID with
      | Err err => ret (Err (Wrap err "error getting clusterID"))
      | Ok clusterID =>
          match getVpc_loop clusterID (Vpcs vpcs) with
          | None => ret (Err (New "error, no vpc found"))
          | Some foundVPC => ret (Ok (Some foundVPC))
          end
      end
  end.

(** The closure [getSubnets] hands to the poll; it assigns the captured
    variable [subs] when the listing succeeds and swallows the error when it
    does not. *)
Definition getSubnets_func : wait.ConditionFunc (list Subnet) :=
  fun subs =>
    listOutput <- call DescribeSubnets EvDescribeSubnets ;;
    match listOutput with
    | Err _ => ret (subs, (false, None))
    | Ok listOutput => ret (Subnets listOutput, (true, None))
    end.

Definition getSubnets : M St (Result (list Subnet)) :=
  '(subs, err) <-
    wait.PollImmediate (Second * 5)%Z (Minute * 5)%Z getSubnets_func [] ;;
  match err with
  | Some err => ret (Err err)
  | None => ret (Ok subs)
  end.

Definition GetCidr (ctx : Context) : M St (Result (string * string)) :=
  foundVPC <- getVpc ctx ;;
  match foundVPC with
  | Err err => ret (Err (Wrap err "error getting vpcs"))
  | Ok None => ret (Err (New "error, unable to find a vpc"))
  | Ok (Some foundVPC) => ret (Ok (Vpc_VpcId foundVPC, CidrBlock foundVPC))
  end.

Definition GetVPCSubnets (ctx : Context) : M St (Result (list Subnet)) :=
  subs <- getSubnets ;;
  match subs with
  | Err err => ret (Err (Wrap err "error getting subnets"))
  | Ok subs =>
      foundVPC <- getVpc ctx ;;
      match foundVPC with
      | Err err => ret (Err (Wrap err "error getting vpcs"))
      | Ok None => ret (Err (New "error, unable to find a vpc"))
      | Ok (Some foundVPC) =>
          match GetVPCSubnets_loop foundVPC subs with
          | [] =>
              ret (Err (New "error, unable to find subnets associated with cluster vpc"))
          | associatedSubs => ret (Ok associatedSubs)
          end
      end
  end.

Definition GetAllSubnetIDS (ctx : Context) : M St (Result (list string)) :=
  subs <- GetVPCSubnets ctx ;;
  match subs with
  | Err err => ret (Err (Wrap err "error getting vpc subnets"))
  | Ok subs =>
      match subIDs_loop subs with
      | [] => ret (Err (New "failed to get list of subnet ids"))
      | subIDs => ret (Ok subIDs)
      end
  end.

Definition GetPrivateSubnetIDS (ctx : Context) : M St (Result (list string)) :=
  subs <- GetVPCSubnets ctx ;;
  match subs with
  | Err err => ret (Err (Wrap err "error getting vpc subnets"))
  | Ok subs =>
      match regexp.Compile regexpStr with
      | Err err => ret (Err (Wrap err ("failed to compile regexp " ++ regexpStr)))
      | Ok anReg =>
          let privateSubs := privateSubs_loop anReg subs in
          match subIDs_loop privateSubs with
          | [] => ret (Err (New "failed to get list of private subnet ids"))
          | subIDs => ret (Ok subIDs)
          end
      end
  end.

Definition SetupSecurityGroup (ctx : Context) : M St (Result unit) :=
  clusterID <- call (GetClusterID ctx) (EvGetClusterID ctx) ;;
  match clusterID with
  | Err err => ret (Err (Wrap err "error getting cluster id"))
  | Ok clusterID =>
  secName <- call (BuildInfraName ctx defaultSecurityGroupPostfix DefaultAwsIdentifierLength)
                  (EvBuildInfraName ctx defaultSecurityGroupPostfix DefaultAwsIdentifierLength) ;;
  match secName with
  | Err err => ret (Err (Wrap err "error building subnet group name"))
  | Ok secName =>
  vpc <- GetCidr ctx ;;
  match vpc with
  | Err err => ret (Err (Wrap err "error finding cidr block"))
  | Ok (vpcID, cidr) =>
  foundSecGroup <- getSecurityGroup secName ;;
  match foundSecGroup with
  | Err err => ret (Err (Wrap err "error get security group"))
  | Ok None =>
      let input :=
        {| CreateSecurityGroupInput_Description := "security group for cluster " ++ clusterID;
           CreateSecurityGroupInput_GroupName := secName;
           CreateSecurityGroupInput_VpcId := vpcID |} in
      r <- call (CreateSecurityGroup input) (EvCreateSecurityGroup input) ;;
      match r with
      | Err err => ret (Err (Wrap err "error creating security group"))
      | Ok _ => ret (Ok tt)
      end
  | Ok (Some foundSecGroup) =>
      let ipPermission := ipPermission cidr in
      if existsb (fun perm => DeepEqual perm (Some ipPermission))
                 (IpPermissions foundSecGroup)
      then ret (Ok tt)
      else
        let input :=
          {| AuthorizeSecurityGroupIngressInput_GroupId := GroupId foundSecGroup;
             AuthorizeSecurityGroupIngressInput_IpPermissions := [Some ipPermission] |} in
        r <- call (AuthorizeSecurityGroupIngress input)
                  (EvAuthorizeSecurityGroupIngress input) ;;
        match r with
        | Err err => ret (Err (Wrap err "error authorizing security group ingress"))
        | Ok _ => ret (Ok tt)
        end
  end end end end.

End Source.

(* ===================================================================== *)
(** ** A provider fixture *)
(* ===================================================================== *)

Module Fixture.

(** The provider is an external system.  The fixture is a provider whose
    listings show what was created before (read-after-write), whose create
    call adds a group without permissions, whose authorize call appends the
    given permissions to the group with the given identifier and changes
    nothing else, whose other calls delete, take away or add what they name,
    and whose credentials are honoured only from some moment on
    (the propagation delay that the poll in [getSubnets] absorbs).  The
    cluster client answers with a fixed identity and a deterministic name
    builder, and fails once the caller's context is done. *)
Record Cloud := {
  now : Duration;
  readyAt : Duration;
  identity : Result string;
  infraName : string -> nat -> Result string;
  vpcs : list Vpc;
  subnets : list Subnet;
  groups : list SecurityGroup;
  nextId : nat
}.

Definition ready (c : Cloud) : bool := (readyAt c <=? now c)%Z.

Definition AuthFailure : error := ExternalError "AuthFailure".
Definition InvalidGroupNotFound : error := ExternalError "InvalidGroup.NotFound".
Definition DeadlineExceeded : error := ExternalError "context deadline exceeded".

Definition set_now (t : Duration) (c : Cloud) : Cloud :=
  {| now := t; readyAt := readyAt c; identity := identity c;
     infraName := infraName c; vpcs := vpcs c; subnets := subnets c;
     groups := groups c; nextId := nextId c |}.

Definition set_groups (gs : list SecurityGroup) (n : nat) (c : Cloud) : Cloud :=
  {| now := now c; readyAt := readyAt c; identity := identity c;
     infraName := infraName c; vpcs := vpcs c; subnets := subnets c;
     groups := gs; nextId := n |}.

Definition guarded {A} (c : Cloud) (reply : Result A * Cloud) : Result A * Cloud :=
  if ready c then reply else (Err AuthFailure, c).

Definition freshId (kind : string) (c : Cloud) : string :=
  kind ++ "-" ++ NilEmpty.string_of_uint (Nat.to_uint (nextId c)).

Definition createGroup (input : CreateSecurityGroupInput) (c : Cloud) : Cloud :=
  set_groups
    (groups c ++
       [{| Description := CreateSecurityGroupInput_Description input;
           GroupId := freshId "sg" c;
           GroupName := CreateSecurityGroupInput_GroupName input;
           IpPermissions := [];
           SecurityGroup_VpcId := CreateSecurityGroupInput_VpcId input |}])
    (S (nextId c)) c.

Definition addPermissions (input : AuthorizeSecurityGroupIngressInput)
  (g : SecurityGroup) : SecurityGroup :=
  if GroupId g =? AuthorizeSecurityGroupIngressInput_GroupId input
  then {| Description := Description g;
          GroupId := GroupId g;
          GroupName := GroupName g;
          IpPermissions :=
            IpPermissions g ++ AuthorizeSecurityGroupIngressInput_IpPermissions input;
          SecurityGroup_VpcId := SecurityGroup_VpcId g |}
  else g.

Definition authorize (input : AuthorizeSecurityGroupIngressInput) (c : Cloud)
  : Result unit * Cloud :=
  if existsb (fun g => GroupId g =? AuthorizeSecurityGroupIngressInput_GroupId input)
             (groups c)
  then (Ok tt, set_groups (map (addPermissions input) (groups c)) (nextId c) c)
  else (Err InvalidGroupNotFound, c).

Definition set_networks (vs : list Vpc) (ss : list Subnet) (n : nat) (c : Cloud) : Cloud :=
  {| now := now c; readyAt := readyAt c; identity := identity c;
     infraName := infraName c; vpcs := vs; subnets := ss;
     groups := groups c; nextId := n |}.

Definition deleteGroup (input : DeleteSecurityGroupInput) (c : Cloud) : Cloud :=
  set_groups
    (filter (fun g => negb (GroupId g =? DeleteSecurityGroupInput_GroupId input))
            (groups c))
    (nextId c) c.

Definition removePermissions (input : RevokeSecurityGroupIngressInput)
  (g : SecurityGroup) : SecurityGroup :=
  if GroupId g =? RevokeSecurityGroupIngressInput_GroupId input
  then {| Description := Description g;
          GroupId := GroupId g;
          GroupName := GroupName g;
          IpPermissions :=
            filter
              (fun p =>
                 negb (existsb (DeepEqual p)
                               (RevokeSecurityGroupIngressInput_IpPermissions input)))
              (IpPermissions g);
          SecurityGroup_VpcId := SecurityGroup_VpcId g |}
  else g.

Definition revoke (input : RevokeSecurityGroupIngressInput) (c : Cloud) : Cloud :=
  set_groups (map (removePermissions input) (groups c)) (nextId c) c.

Definition createSubnet (input : CreateSubnetInput) (c : Cloud) : Cloud :=
  set_networks (vpcs c)
    (subnets c ++
       [{| SubnetId := freshId "subnet" c;
           Subnet_VpcId := CreateSubnetInput_VpcId input;
           Subnet_Tags := [] |}])
    (S (nextId c)) c.

Definition deleteSubnet (input : DeleteSubnetInput) (c : Cloud) : Cloud :=
  set_networks (vpcs c)
    (filter (fun s => negb (SubnetId s =? DeleteSubnetInput_SubnetId input)) (subnets c))
    (nextId c) c.

Definition createVpc (input : CreateVpcInput) (c : Cloud) : Cloud :=
  set_networks
    (vpcs c ++
       [{| Vpc_VpcId := freshId "vpc" c;
           CidrBlock := CreateVpcInput_CidrBlock input;
           Vpc_Tags := [] |}])
    (subnets c) (S (nextId c)) c.

Definition deleteVpc (input : DeleteVpcInput) (c : Cloud) : Cloud :=
  set_networks
    (filter (fun v => negb (Vpc_VpcId v =? DeleteVpcInput_VpcId input)) (vpcs c))
    (subnets c) (nextId c) c.

#[export] Instance ec2Svc : EC2API Cloud := {
  DescribeVpcs c := guarded c (Ok {| Vpcs := vpcs c |}, c);
  DescribeSubnets c := guarded c (Ok {| Subnets := subnets c |}, c);
  DescribeSecurityGroups c := guarded c (Ok {| SecurityGroups := groups c |}, c);
  CreateSecurityGroup input c := guarded c (Ok tt, createGroup input c);
  AuthorizeSecurityGroupIngress input c := guarded c (authorize input c);
  DeleteSecurityGroup input c := guarded c (Ok tt, deleteGroup input c);
  RevokeSecurityGroupIngress input c := guarded c (Ok tt, revoke input c);
  CreateSubnet input c := guarded c (Ok tt, createSubnet input c);
  DeleteSubnet input c := guarded c (Ok tt, deleteSubnet input c);
  ModifySubnetAttribute input c := guarded c (Ok tt, c);
  CreateVpc input c := guarded c (Ok tt, createVpc input c);
  DeleteVpc input c := guarded c (Ok tt, deleteVpc input c);
  ModifyVpcAttribute input c := guarded c (Ok tt, c)
}.

#[export] Instance client : Cluster Cloud := {
  GetClusterID ctx c := (if Done ctx then Err DeadlineExceeded else identity c, c);
  BuildInfraName ctx postfix n c :=
    (if Done ctx then Err DeadlineExceeded else infraName c postfix n, c);
  DefaultAwsIdentifierLength := 40
}.

#[export] Instance clock : Clock Cloud := {
  Sleep d c := set_now (now c + d)%Z c
}.

(** What [SetupSecurityGroup] is going to do to the fixture, read off the
    fixture's state. *)
Inductive Plan : Type :=
| Fail
| Converged
| Create (input : CreateSecurityGroupInput)
| Authorize (input : AuthorizeSecurityGroupIngressInput).

Definition plan (ctx : Context) (c : Cloud) : Plan :=
  if Done ctx then Fail else
  match identity c with
  | Err _ => Fail
  | Ok clusterID =>
  match infraName c defaultSecurityGroupPostfix 40 with
  | Err _ => Fail
  | Ok secName =>
  if negb (ready c) then Fail else
  match getVpc_loop clusterID (vpcs c) with
  | None => Fail
  | Some vpc =>
  match getSecurityGroup_loop secName (groups c) with
  | None =>
      Create
        {| CreateSecurityGroupInput_Description := "security group for cluster " ++ clusterID;
           CreateSecurityGroupInput_GroupName := secName;
           CreateSecurityGroupInput_VpcId := Vpc_VpcId vpc |}
  | Some sg =>
      if existsb (fun perm => DeepEqual perm (Some (ipPermission (CidrBlock vpc))))
                 (IpPermissions sg)
      then Converged
      else
        Authorize
          {| AuthorizeSecurityGroupIngressInput_GroupId := GroupId sg;
             AuthorizeSecurityGroupIngressInput_IpPermissions :=
               [Some (ipPermission (CidrBlock vpc))] |}
  end end end end.

(** The VPCs, subnets and groups of two fixture states are the same. *)
Definition sameResources (c c' : Cloud) : Prop :=
  vpcs c' = vpcs c /\ subnets c' = subnets c /\ groups c' = groups c.

(** A name builder in the manner of the spec: identity and postfix joined,
    cut to the length asked for. *)
Definition joinName (id postfix : string) (n : nat) : Result string :=
  Ok (substring 0 n (id ++ "-" ++ postfix)).

Definition background : Context := {| Done := false |}.
Definition expired : Context := {| Done := true |}.

Definition tag (k v : string) : Tag := {| Key := k; Value := v |}.

(** A small account: two VPCs, four subnets, no security group yet. *)
Definition fooVpc : Vpc :=
  {| Vpc_VpcId := "vpc-1"; CidrBlock := "10.1.0.0/16"; Vpc_Tags := [tag "Name" "foo-vpc"] |}.
Definition barVpc : Vpc :=
  {| Vpc_VpcId := "vpc-2"; CidrBlock := "10.0.0.0/16"; Vpc_Tags := [tag "Name" "bar-vpc"] |}.

Definition barTwin : Vpc :=
  {| Vpc_VpcId := "vpc-3"; CidrBlock := "10.2.0.0/16";
     Vpc_Tags := [tag "owner" "ops"; tag "cluster" "bar-vpc"] |}.

Definition privateA : Subnet :=
  {| SubnetId := "subnet-a"; Subnet_VpcId := "vpc-2";
     Subnet_Tags := [tag "Name" "cluster-private-a"] |}.
Definition publicA : Subnet :=
  {| SubnetId := "subnet-b"; Subnet_VpcId := "vpc-2";
     Subnet_Tags := [tag "Name" "cluster-public-a"] |}.
Definition privateTwice : Subnet :=
  {| SubnetId := "subnet-c"; Subnet_VpcId := "vpc-2";
     Subnet_Tags := [tag "Name" "cluster-private-c"; tag "kind" "private"] |}.
Definition elsewhere : Subnet :=
  {| SubnetId := "subnet-d"; Subnet_VpcId := "vpc-1";
     Subnet_Tags := [tag "Name" "foo-private-d"] |}.

Definition account : Cloud :=
  {| now := 0%Z; readyAt := 0%Z;
     identity := Ok "bar";
     infraName := joinName "bar";
     vpcs := [fooVpc; barVpc];
     subnets := [privateA; publicA; privateTwice; elsewhere];
     groups := [];
     nextId := 0 |}.

(** A second entry with the identifier of [privateTwice]. *)
Definition privateAgain : Subnet :=
  {| SubnetId := "subnet-c"; Subnet_VpcId := "vpc-2";
     Subnet_Tags := [tag "Name" "cluster-private-c"] |}.

(** The account as a provider lists it that has one identifier on two
    entries. *)
Definition relisted : Cloud :=
  {| now := 0%Z; readyAt := 0%Z;
     identity := Ok "bar";
     infraName := joinName "bar";
     vpcs := [fooVpc; barVpc];
     subnets := [privateTwice; privateA; privateAgain];
     groups := [];
     nextId := 0 |}.

(** An account in which two VPCs carry the cluster's tag value. *)
Definition twins : Cloud :=
  {| now := 0%Z; readyAt := 0%Z;
     identity := Ok "bar";
     infraName := joinName "bar";
     vpcs := [barVpc; fooVpc; barTwin];
     subnets := [];
     groups := [];
     nextId := 0 |}.

(** The account seen by a cluster that owns no VPC in it. *)
Definition stranger : Cloud :=
  {| now := 0%Z; readyAt := 0%Z;
     identity := Ok "baz";
     infraName := joinName "baz";
     vpcs := [fooVpc; barVpc];
     subnets := [privateA; publicA; privateTwice; elsewhere];
     groups := [];
     nextId := 0 |}.

(** The same account while its credentials have not propagated yet. *)
Definition notYet (delay : Duration) (c : Cloud) : Cloud :=
  {| now := now c; readyAt := (now c + delay)%Z; identity := identity c;
     infraName := infraName c; vpcs := vpcs c; subnets := subnets c;
     groups := groups c; nextId := nextId c |}.

Definition barGroup (perms : list (option IpPermission)) : SecurityGroup :=
  {| Description := "security group for cluster bar";
     GroupId := "sg-0";
     GroupName := "bar-security-group";
     IpPermissions := perms;
     SecurityGroup_VpcId := "vpc-2" |}.

Definition withGroups (gs : list SecurityGroup) (c : Cloud) : Cloud :=
  set_groups gs (List.length gs) c.

(** The account in which the group exists with a permission for another
    range. *)
Definition otherRange : Cloud :=
  withGroups [barGroup [Some (ipPermission "10.0.1.0/16")]] account.

(** The account in which the group exists with the wanted permission. *)
Definition converged : Cloud :=
  withGroups [barGroup [Some (ipPermission "10.0.0.0/16")]] account.

(** The wanted permission as a provider might hand it back, with an empty
    list where the file leaves a nil one. *)
Definition emptyNotNil : IpPermission :=
  {| FromPort := None;
     IpProtocol := Some "-1";
     IpRanges := Some [Some {| CidrIp := Some "10.0.0.0/16"; IpRange_Description := None |}];
     Ipv6Ranges := Some [];
     PrefixListIds := None;
     ToPort := None;
     UserIdGroupPairs := None |}.

End Fixture.

(* ===================================================================== *)
(** ** The vocabulary of the specification *)
(* ===================================================================== *)

(** A VPC is the cluster's when one of its tags has the value
    ["<identity>-vpc"]. *)
Definition vpcMatches (clusterID : string) (vpc : Vpc) : bool :=
  existsb (fun tag => Value tag =? clusterID ++ "-vpc") (Vpc_Tags vpc).

(** A subnet is associated with a VPC when it names that VPC as its owner. *)
Definition associated (vpc : Vpc) (sub : Subnet) : bool :=
  Subnet_VpcId sub =? Vpc_VpcId vpc.

(** A tag value matches the pattern of [GetPrivateSubnetIDS]. *)
Definition matchesPrivate (value : string) : bool :=
  match regexp.Compile regexpStr with
  | Ok anReg => regexp.MatchString anReg value
  | Err _ => false
  end.

(** How many tags of a subnet have a matching value. *)
Definition privateTags (sub : Subnet) : nat :=
  List.length (filter (fun tag => matchesPrivate (Value tag)) (Subnet_Tags sub)).

(** The listed subnets that carry a given identifier. *)
Definition withId (id : string) (subs : list Subnet) : list Subnet :=
  filter (fun sub => (SubnetId sub =? id)%string) subs.

Definition isPrivate (sub : Subnet) : bool :=
  existsb (fun tag => matchesPrivate (Value tag)) (Subnet_Tags sub).

(** The text has ["private"] somewhere in it. *)
Definition containsPrivate (value : string) : Prop :=
  exists pre post : list ascii,
    list_ascii_of_string value = pre ++ list_ascii_of_string "private" ++ post.

(** The text has a run of word characters with ["private"] in it, and the
    run is delimited: no word character comes right before it or right after
    it. *)
Definition privateWord (value : string) : Prop :=
  exists pre w1 w2 post : list ascii,
    list_ascii_of_string value
      = pre ++ (w1 ++ list_ascii_of_string "private" ++ w2) ++ post
    /\ forallb regexp.isWordChar w1 = true
    /\ forallb regexp.isWordChar w2 = true
    /\ (pre = [] \/
        exists pre' c, pre = pre' ++ [c] /\ regexp.isWordChar c = false)
    /\ (post = [] \/
        exists c post', post = c :: post' /\ regexp.isWordChar c = false).

(** The events of the ticks of a poll: a sleep before every attempt. *)
Definition tickTrace (interval : Duration)
  (replies : list (Result DescribeSubnetsOutput)) : list Event :=
  flat_map (fun r => [EvSleep interval; EvDescribeSubnets r]) replies.

(** The trace of what is left of a poll with [n] ticks to go: the listings
    of the ticks, each after a sleep, and the closing one without. *)
Definition restTrace (n : nat) (interval : Duration)
  (replies : list (Result DescribeSubnetsOutput)) : list Event :=
  tickTrace interval (firstn n replies) ++ map EvDescribeSubnets (skipn n replies).

(** The trace of a poll of [n] ticks whose listings were answered with
    [replies]: the first listing at once, a sleep before the listing of every
    tick, and no sleep before the listing made as the budget runs out. *)
Definition pollTrace (n : nat) (interval : Duration)
  (replies : list (Result DescribeSubnetsOutput)) : list Event :=
  match replies with
  | [] => []
  | r :: rest => EvDescribeSubnets r :: restTrace n interval rest
  end.

(** The ticks [getSubnets] asks for: the intervals that fit into its
    budget. *)
Definition budgetTicks : nat := Z.to_nat ((Minute * 5) / (Second * 5)).

(** Listings that failed. *)
Definition failed (causes : list error) : list (Result DescribeSubnetsOutput) :=
  map Err causes.

(** The most attempts the poll of [getSubnets] can make: one at once, one
    per interval of the budget and one as the budget runs out. *)
Definition maxAttempts : nat := S (S budgetTicks).

(** A group of the provider is still there, possibly with permissions added
    after the ones it had. *)
Definition extends (g g' : SecurityGroup) : Prop :=
  Description g' = Description g /\
  GroupId g' = GroupId g /\
  GroupName g' = GroupName g /\
  SecurityGroup_VpcId g' = SecurityGroup_VpcId g /\
  exists added, IpPermissions g' = IpPermissions g ++ added.

(** What [SetupSecurityGroup] asks the provider to create. *)
Definition createInput (clusterID secName vpcID : string) : CreateSecurityGroupInput :=
  {| CreateSecurityGroupInput_Description := "security group for cluster " ++ clusterID;
     CreateSecurityGroupInput_GroupName := secName;
     CreateSecurityGroupInput_VpcId := vpcID |}.

(** What [SetupSecurityGroup] asks the provider to authorize. *)
Definition authorizeInput (groupId cidr : string) : AuthorizeSecurityGroupIngressInput :=
  {| AuthorizeSecurityGroupIngressInput_GroupId := groupId;
     AuthorizeSecurityGroupIngressInput_IpPermissions := [Some (ipPermission cidr)] |}.

(** The result of [SetupSecurityGroup] after its one mutating call. *)
Definition afterCall (r : Result unit) (msg : string) : Result unit :=
  match r with
  | Ok _ => Ok tt
  | Err err => Err (Wrap err msg)
  end.

(** The calls [SetupSecurityGroup] makes before it decides, [t] being those
    of [getVpc]. *)
Definition lookups (ctx : Context) (clusterID secName : string) (n : nat)
  (t : list Event) (out : DescribeSecurityGroupsOutput) : list Event :=
  EvGetClusterID ctx (Ok clusterID)
  :: EvBuildInfraName ctx defaultSecurityGroupPostfix n (Ok secName)
  :: t ++ [EvDescribeSecurityGroups (Ok out)].

(** A trace with no mutating call, or with exactly one: a create call or an
    authorize call. *)
Definition mutatesAtMostOnce (t : list Event) : Prop :=
  mutations t = []
  \/ (exists input r, mutations t = [EvCreateSecurityGroup input r])
  \/ (exists input r, mutations t = [EvAuthorizeSecurityGroupIngress input r]).

(** What a poll with [n] ticks to go can come to: a listing succeeded after
    some failures, or every tick and the closing attempt were used up on
    failures. *)
Definition pollOutcome (n : nat) (v : list Subnet)
  (replies : list (Result DescribeSubnetsOutput))
  (r : list Subnet * option error) : Prop :=
  (exists causes out,
      replies = failed causes ++ [Ok out]
      /\ List.length replies <= S n
      /\ r = (Subnets out, None))
  \/ (exists causes,
         replies = failed causes
         /\ List.length replies = S n
         /\ r = (v, Some ErrWaitTimeout)).

(** The provider and the clock really did what a trace of listings and sleeps
    says, from one state to another: every listing event carries the reply
    [DescribeSubnets] gave in the state it was called in, every sleep moved
    the clock, and the states are threaded through. *)
Inductive answered {St : Type} `{EC2API St} `{Clock St} : St -> list Event -> St -> Prop :=
| answered_nil (s : St) : answered s [] s
| answered_listing (s s1 s' : St) (r : Result DescribeSubnetsOutput) (t : list Event) :
    DescribeSubnets s = (r, s1) -> answered s1 t s' ->
    answered s (EvDescribeSubnets r :: t) s'
| answered_sleep (s s' : St) (d : Duration) (t : list Event) :
    answered (Sleep d s) t s' -> answered s (EvSleep d :: t) s'.

(** Run a computation on the fixture, replacing every reply that a
    hypothesis tells. *)
Ltac run_fixture :=
  repeat
    (progress
       (cbn -[Fixture.ready getVpc_loop getSecurityGroup_loop existsb
              Fixture.authorize Fixture.createGroup];
        unfold Fixture.guarded;
        repeat match goal with
               | Heq : _ = _ |- _ => rewrite Heq
               end)).

(* ===================================================================== *)
(** ** Further vocabulary: errors, events, repeated invocations *)
(* ===================================================================== *)

(** The innermost error of a chain of [Wrap]s ([errors.Cause]). *)
Fixpoint Cause (e : error) : error :=
  match e with
  | Wrap c _ => Cause c
  | _ => e
  end.

(** An error that carries a description written in the file: one made by
    [errorUtil.New] or [errorUtil.Wrap]. *)
Definition described (e : error) : bool :=
  match e with
  | New _ | Wrap _ _ => true
  | ExternalError _ | ErrWaitTimeout => false
  end.

Definition errorOf {A} (r : Result A) : option error :=
  match r with
  | Ok _ => None
  | Err e => Some e
  end.

(** The error a collaborator replied with, if the call failed. *)
Definition failure (ev : Event) : option error :=
  match ev with
  | EvGetClusterID _ r | EvBuildInfraName _ _ _ r => errorOf r
  | EvDescribeVpcs r => errorOf r
  | EvDescribeSubnets r => errorOf r
  | EvDescribeSecurityGroups r => errorOf r
  | EvCreateSecurityGroup _ r | EvAuthorizeSecurityGroupIngress _ r
  | EvDeleteSecurityGroup _ r | EvRevokeSecurityGroupIngress _ r
  | EvCreateSubnet _ r | EvDeleteSubnet _ r | EvModifySubnetAttribute _ r
  | EvCreateVpc _ r | EvDeleteVpc _ r | EvModifyVpcAttribute _ r => errorOf r
  | EvSleep _ => None
  end.

(** The events of a poll: a subnet listing or a wait. *)
Definition isPoll (ev : Event) : bool :=
  match ev with
  | EvDescribeSubnets _ | EvSleep _ => true
  | _ => false
  end.

(** A run stops at the first collaborator call that fails and reports that
    failure: a failed call is the last event of the trace, and the result is
    an error with the same cause. *)
Definition failsFast {St A} (o : Result A * St * list Event) : Prop :=
  forall pre ev post e0,
    trace_of o = pre ++ ev :: post ->
    failure ev = Some e0 ->
    post = [] /\ exists e, result_of o = Err e /\ Cause e = Cause e0.

(** The fixture after [n] invocations of [SetupSecurityGroup] in a row. *)
Fixpoint invocations (ctx : Context) (n : nat) (c : Fixture.Cloud) : Fixture.Cloud :=
  match n with
  | O => c
  | S n' =>
      state_of (SetupSecurityGroup (H := Fixture.ec2Svc) (H0 := Fixture.client) ctx
                  (invocations ctx n' c))
  end.

(* ===================================================================== *)
(** ** Lists and loops *)
(* ===================================================================== *)

Section Loops.
Context {A B : Type}.

Lemma fold_left_append_if (p : A -> bool) (f : A -> B) (l : list A) (acc : list B) :
  fold_left (fun acc x => if p x then acc ++ [f x] else acc) l acc
  = acc ++ map f (filter p l).
Proof.
  revert acc. induction l as [|x l IH]; intros acc; simpl.
  - now rewrite app_nil_r.
  - rewrite IH. destruct (p x); simpl; [now rewrite <- app_assoc | reflexivity].
Qed.

Lemma fold_left_append_const (p : A -> bool) (b : B) (l : list A) (acc : list B) :
  fold_left (fun acc x => if p x then acc ++ [b] else acc) l acc
  = acc ++ repeat b (List.length (filter p l)).
Proof.
  rewrite (fold_left_append_if p (fun _ => b)).
  f_equal. induction l as [|x l IH]; simpl; [reflexivity|].
  destruct (p x); simpl; now rewrite IH.
Qed.

Lemma find_append (p : A -> bool) (l1 l2 : list A) :
  find p (l1 ++ l2)
  = match find p l1 with
    | Some x => Some x
    | None => find p l2
    end.
Proof.
  induction l1 as [|x l1 IH]; simpl; [reflexivity|].
  now destruct (p x).
Qed.

Lemma fold_left_overwrite (p : A -> bool) (l : list A) (found : option A) :
  fold_left (fun found x => if p x then Some x else found) l found
  = match find p (rev l) with
    | Some x => Some x
    | None => found
    end.
Proof.
  revert found. induction l as [|x l IH]; intros found; simpl; [reflexivity|].
  rewrite IH, find_append.
  destruct (find p (rev l)); simpl; [reflexivity|].
  destruct (p x); reflexivity.
Qed.

Lemma find_split (p : A -> bool) (l : list A) (x : A) :
  find p l = Some x <->
  exists pre post, l = pre ++ x :: post /\ p x = true
                   /\ forallb (fun y => negb (p y)) pre = true.
Proof.
  split.
  - induction l as [|y l IH]; simpl; [discriminate|].
    destruct (p y) eqn:Hy.
    + intros [= ->]. exists [], l. auto.
    + intros Hf. destruct (IH Hf) as (pre & post & -> & Hx & Hpre).
      exists (y :: pre), post. simpl. rewrite Hy. auto.
  - intros (pre & post & -> & Hx & Hpre).
    induction pre as [|y pre IH]; simpl in *.
    + now rewrite Hx.
    + apply andb_true_iff in Hpre as [Hy Hpre].
      apply negb_true_iff in Hy. rewrite Hy. auto.
Qed.

Lemma find_rev_last (p : A -> bool) (l : list A) (x : A) :
  find p (rev l) = Some x <->
  exists pre post, l = pre ++ x :: post /\ p x = true
                   /\ forallb (fun y => negb (p y)) post = true.
Proof.
  rewrite find_split. split.
  - intros (a & b & Hl & Hx & Ha).
    exists (rev b), (rev a). repeat split; auto.
    + rewrite <- (rev_involutive l), Hl, rev_app_distr. simpl.
      now rewrite <- app_assoc.
    + rewrite forallb_forall in *. intros y Hy. apply Ha. now apply in_rev.
  - intros (pre & post & -> & Hx & Hpost).
    exists (rev post), (rev pre). repeat split; auto.
    + rewrite rev_app_distr. simpl. now rewrite <- app_assoc.
    + rewrite forallb_forall in *. intros y Hy. apply Hpost. now apply in_rev.
Qed.

Lemma find_none_iff (p : A -> bool) (l : list A) :
  find p l = None <-> forall x, In x l -> p x = false.
Proof.
  split.
  - intros Hf x Hx. now apply (find_none p l Hf).
  - induction l as [|y l IH]; simpl; [reflexivity|].
    intros Hall. rewrite (Hall y (or_introl eq_refl)). auto.
Qed.

End Loops.

Lemma getVpc_loop_find (clusterID : string) (vpcs : list Vpc) :
  getVpc_loop clusterID vpcs = find (vpcMatches clusterID) (rev vpcs).
Proof.
  unfold getVpc_loop.
  transitivity
    (fold_left (fun found vpc => if vpcMatches clusterID vpc then Some vpc else found)
               vpcs None).
  - generalize (@None Vpc) as found.
    induction vpcs as [|vpc vpcs IH]; intros found; simpl; [reflexivity|].
    rewrite IH. f_equal. unfold vpcMatches.
    generalize (Vpc_Tags vpc) as tags. clear.
    intros tags. revert found.
    induction tags as [|tag tags IH]; intros found; simpl; [reflexivity|].
    rewrite IH. destruct (Value tag =? clusterID ++ "-vpc"); simpl; [|reflexivity].
    now destruct (existsb _ tags).
  - rewrite fold_left_overwrite. now destruct (find _ _).
Qed.

Lemma GetVPCSubnets_loop_filter (foundVPC : Vpc) (subs : list Subnet) :
  GetVPCSubnets_loop foundVPC subs = filter (associated foundVPC) subs.
Proof.
  unfold GetVPCSubnets_loop.
  rewrite (fold_left_append_if (associated foundVPC) (fun sub => sub)).
  simpl. apply map_id.
Qed.

Lemma subIDs_loop_map (subs : list Subnet) :
  subIDs_loop subs = map SubnetId subs.
Proof.
  unfold subIDs_loop.
  rewrite (fold_left_append_if (fun _ => true) SubnetId). simpl.
  f_equal. induction subs; simpl; congruence.
Qed.

Lemma privateSubs_loop_flat_map (anReg : regexp.Regexp) (subs : list Subnet) :
  privateSubs_loop anReg subs
  = flat_map
      (fun sub =>
         repeat sub
           (List.length
              (filter (fun tag => regexp.MatchString anReg (Value tag))
                      (Subnet_Tags sub))))
      subs.
Proof.
  unfold privateSubs_loop.
  set (body := fun (privateSubs : list Subnet) (sub : Subnet) =>
                 fold_left _ (Subnet_Tags sub) privateSubs).
  set (out := fun sub : Subnet => repeat sub _).
  assert (Hgen : forall acc, fold_left body subs acc = acc ++ flat_map out subs).
  { induction subs as [|sub subs IH]; intros acc; simpl.
    - now rewrite app_nil_r.
    - rewrite IH. unfold body, out.
      rewrite (fold_left_append_const
                 (fun tag => regexp.MatchString anReg (Value tag)) sub).
      now rewrite <- app_assoc. }
  apply Hgen.
Qed.

Lemma Compile_regexpStr :
  exists anReg, regexp.Compile regexpStr = Ok anReg.
Proof. eexists. reflexivity. Qed.

(** What [GetPrivateSubnetIDS] computes from the associated subnets. *)
Lemma privateSubs_ids (subs : list Subnet) :
  match regexp.Compile regexpStr with
  | Ok anReg => subIDs_loop (privateSubs_loop anReg subs)
  | Err _ => []
  end
  = flat_map (fun sub => repeat (SubnetId sub) (privateTags sub)) subs.
Proof.
  destruct Compile_regexpStr as [anReg Hre].
  unfold privateTags, matchesPrivate. rewrite Hre.
  rewrite subIDs_loop_map, privateSubs_loop_flat_map.
  induction subs as [|sub subs IH]; simpl; [reflexivity|].
  rewrite map_app, IH. f_equal.
  induction (List.length _); simpl; congruence.
Qed.

(* ===================================================================== *)
(** ** What the pattern matches *)
(* ===================================================================== *)

Section Pattern.
Import regexp.

#[local] Abbreviation private := (list_ascii_of_string "private").

Lemma lastOr_app prev a b : lastOr prev (a ++ b) = lastOr (lastOr prev a) b.
Proof. apply fold_left_app. Qed.

Lemma lastOr_snoc prev a c : lastOr prev (a ++ [c]) = Some c.
Proof. now rewrite lastOr_app. Qed.

Lemma star_unfold re prev s :
  matchHere (WordStar :: re) prev s
  = matchHere re prev s
    || match s with
       | c :: s' => isWordChar c && matchHere (WordStar :: re) (Some c) s'
       | [] => false
       end.
Proof. destruct s; reflexivity. Qed.

Lemma star_spec re s : forall prev,
  matchHere (WordStar :: re) prev s = true <->
  exists w rest, s = w ++ rest /\ forallb isWordChar w = true
                 /\ matchHere re (lastOr prev w) rest = true.
Proof.
  induction s as [|c s IH]; intros prev; rewrite star_unfold.
  - rewrite orb_false_r. split.
    + intros Hm. exists [], []. auto.
    + intros (w & rest & Hs & _ & Hm).
      symmetry in Hs. apply app_eq_nil in Hs as [-> ->]. exact Hm.
  - rewrite orb_true_iff, andb_true_iff, IH. split.
    + intros [Hm | [Hc (w & rest & -> & Hw & Hm)]].
      * exists [], (c :: s). auto.
      * exists (c :: w), rest. simpl. rewrite Hc. auto.
    + intros (w & rest & Hs & Hw & Hm). destruct w as [|c' w]; simpl in *.
      * left. now subst rest.
      * injection Hs as -> ->. apply andb_true_iff in Hw as [Hc Hw].
        right. split; [assumption|]. now exists w, rest.
Qed.

Lemma literal_spec lit re : forall prev s,
  matchHere (map Char lit ++ re) prev s = true <->
  exists rest, s = lit ++ rest /\ matchHere re (lastOr prev lit) rest = true.
Proof.
  induction lit as [|a lit IH]; intros prev s; simpl.
  - split; [intros Hm; now exists s | now intros (rest & -> & Hm)].
  - destruct s as [|c s].
    + split; [discriminate | intros (rest & Hs & _); discriminate].
    + rewrite andb_true_iff, IH, Ascii.eqb_eq. split.
      * intros [-> (rest & -> & Hm)]. now exists rest.
      * intros (rest & [= -> ->] & Hm). split; [reflexivity | now exists rest].
Qed.

Lemma search_spec re s : forall prev,
  search re prev s = true <->
  exists pre rest, s = pre ++ rest /\ matchHere re (lastOr prev pre) rest = true.
Proof.
  induction s as [|c s IH]; intros prev; simpl.
  - rewrite orb_false_r. split.
    + intros Hm. now exists [], [].
    + intros (pre & rest & Hs & Hm).
      symmetry in Hs. apply app_eq_nil in Hs as [-> ->]. exact Hm.
  - rewrite orb_true_iff, IH. split.
    + intros [Hm | (pre & rest & -> & Hm)].
      * now exists [], (c :: s).
      * now exists (c :: pre), rest.
    + intros (pre & rest & Hs & Hm). destruct pre as [|c' pre]; simpl in *.
      * left. now subst rest.
      * injection Hs as -> ->. right. now exists pre, rest.
Qed.

Lemma isWordOpt_lastOr pre :
  isWordOpt (lastOr None pre) = false <->
  pre = [] \/ exists pre' c, pre = pre' ++ [c] /\ isWordChar c = false.
Proof.
  destruct pre as [|c pre] using rev_ind.
  - simpl. split; auto.
  - rewrite lastOr_snoc. simpl. split.
    + intros Hc. right. now exists pre, c.
    + intros [Hnil | (pre' & c' & Heq & Hc)].
      * now destruct pre.
      * apply app_inj_tail in Heq as [_ ->]. exact Hc.
Qed.

Lemma isWordOpt_hd post :
  isWordOpt (hd_error post) = false <->
  post = [] \/ exists c post', post = c :: post' /\ isWordChar c = false.
Proof.
  destruct post as [|c post]; simpl.
  - split; auto.
  - split.
    + intros Hc. right. now exists c, post.
    + intros [Hnil | (c' & post' & [= -> ->] & Hc)]; [discriminate | exact Hc].
Qed.

Lemma lastOr_word prev w :
  isWordOpt prev = true -> forallb isWordChar w = true ->
  isWordOpt (lastOr prev w) = true.
Proof.
  revert prev. induction w as [|c w IH]; intros prev Hp Hw; simpl in *; [assumption|].
  apply andb_true_iff in Hw as [Hc Hw]. now apply IH.
Qed.

Lemma private_run_last prev w2 :
  forallb isWordChar w2 = true ->
  isWordOpt (lastOr (lastOr prev private) w2) = true.
Proof. intros Hw2. now apply lastOr_word. Qed.

Lemma private_run_first w1 w2 post :
  forallb isWordChar w1 = true ->
  isWordOpt (hd_error ((w1 ++ private ++ w2) ++ post)) = true.
Proof.
  intros Hw1. destruct w1 as [|c w1]; simpl in *; [reflexivity|].
  now apply andb_true_iff in Hw1 as [Hc _].
Qed.


Lemma matchesPrivate_word (value : string) :
  matchesPrivate value = true <-> privateWord value.
Proof.
  unfold matchesPrivate, privateWord.
  change (Compile regexpStr)
    with (Ok (WordBoundary :: WordStar :: map Char private ++ [WordStar; WordBoundary])).
  unfold MatchString. rewrite search_spec. split.
  - intros (pre & rest & Hv & Hm).
    change (matchHere _ _ rest)
      with (atBoundary (lastOr None pre) rest
            && matchHere (WordStar :: map Char private ++ [WordStar; WordBoundary])
                         (lastOr None pre) rest) in Hm.
    apply andb_true_iff in Hm as [Hb1 Hm].
    apply star_spec in Hm as (w1 & rest1 & -> & Hw1 & Hm).
    apply literal_spec in Hm as (rest2 & -> & Hm).
    apply star_spec in Hm as (w2 & post & -> & Hw2 & Hm).
    change (matchHere [WordBoundary] ?p ?s) with (atBoundary p s && true) in Hm.
    rewrite andb_true_r in Hm.
    exists pre, w1, w2, post.
    rewrite Hv, <- !app_assoc. repeat split; auto.
    + apply isWordOpt_lastOr. unfold atBoundary in Hb1.
      replace (w1 ++ private ++ w2 ++ post) with ((w1 ++ private ++ w2) ++ post) in Hb1
        by now rewrite <- !app_assoc.
      rewrite private_run_first in Hb1 by assumption.
      now destruct (isWordOpt (lastOr None pre)).
    + apply isWordOpt_hd. unfold atBoundary in Hm.
      rewrite private_run_last in Hm by assumption.
      now destruct (isWordOpt (hd_error post)).
  - intros (pre & w1 & w2 & post & Hv & Hw1 & Hw2 & Hpre & Hpost).
    apply isWordOpt_lastOr in Hpre. apply isWordOpt_hd in Hpost.
    exists pre, ((w1 ++ private ++ w2) ++ post). split; [exact Hv|].
    change (matchHere _ _ ?rest)
      with (atBoundary (lastOr None pre) rest
            && matchHere (WordStar :: map Char private ++ [WordStar; WordBoundary])
                         (lastOr None pre) rest).
    apply andb_true_iff. split.
    + unfold atBoundary. rewrite private_run_first by assumption.
      now rewrite Hpre.
    + apply star_spec. exists w1, (private ++ w2 ++ post).
      split; [now rewrite <- !app_assoc|]. split; [assumption|].
      apply literal_spec. exists (w2 ++ post). split; [reflexivity|].
      apply star_spec. exists w2, post. split; [reflexivity|]. split; [assumption|].
      change (matchHere [WordBoundary] ?p ?s) with (atBoundary p s && true).
      rewrite andb_true_r. unfold atBoundary.
      rewrite private_run_last by assumption.
      now rewrite Hpost.
Qed.

Lemma word_prefix (b : list ascii) :
  exists w post, b = w ++ post /\ forallb isWordChar w = true
                 /\ isWordOpt (hd_error post) = false.
Proof.
  induction b as [|c b (w & post & -> & Hw & Hpost)].
  - now exists [], [].
  - destruct (isWordChar c) eqn:Hc.
    + exists (c :: w), post. simpl. now rewrite Hc.
    + exists [], (c :: w ++ post). auto.
Qed.

Lemma word_suffix (a : list ascii) :
  exists pre w, a = pre ++ w /\ forallb isWordChar w = true
                /\ isWordOpt (lastOr None pre) = false.
Proof.
  induction a as [|c a (pre & w & -> & Hw & Hpre)] using rev_ind.
  - now exists [], [].
  - destruct (isWordChar c) eqn:Hc.
    + exists pre, (w ++ [c]). rewrite forallb_app, Hw. simpl. rewrite Hc.
      now rewrite app_assoc.
    + exists ((pre ++ w) ++ [c]), []. rewrite app_nil_r, lastOr_snoc. auto.
Qed.

Lemma privateWord_contains (value : string) :
  privateWord value <-> containsPrivate value.
Proof.
  unfold privateWord, containsPrivate. split.
  - intros (pre & w1 & w2 & post & Hv & _).
    exists (pre ++ w1), (w2 ++ post). now rewrite Hv, <- !app_assoc.
  - intros (a & b & Hv).
    destruct (word_suffix a) as (pre & w1 & -> & Hw1 & Hpre).
    destruct (word_prefix b) as (w2 & post & -> & Hw2 & Hpost).
    exists pre, w1, w2, post. rewrite Hv, <- !app_assoc.
    repeat split; auto.
    + now apply isWordOpt_lastOr.
    + now apply isWordOpt_hd.
Qed.

End Pattern.

(* ===================================================================== *)
(** ** Running computations *)
(* ===================================================================== *)

Section Running.
Context {St : Type}.

Lemma bind_run {A B} (m : M St A) (k : A -> M St B) (s : St) :
  bind m k s
  = (result_of (k (result_of (m s)) (state_of (m s))),
     state_of (k (result_of (m s)) (state_of (m s))),
     trace_of (m s) ++ trace_of (k (result_of (m s)) (state_of (m s)))).
Proof.
  unfold bind, result_of, state_of, trace_of.
  destruct (m s) as [[a s1] t1]; simpl.
  now destruct (k a s1) as [[b s2] t2].
Qed.

Lemma bind_trace {A B} (m : M St A) (k : A -> M St B) (s : St) :
  trace_of (bind m k s)
  = trace_of (m s) ++ trace_of (k (result_of (m s)) (state_of (m s))).
Proof. now rewrite bind_run. Qed.

Lemma call_trace {A} (f : St -> A * St) (ev : A -> Event) (s : St) :
  trace_of (call f ev s) = [ev (result_of (call f ev s))].
Proof. unfold call, trace_of, result_of. now destruct (f s). Qed.

Lemma call_run {A} (f : St -> A * St) (ev : A -> Event) (s : St) :
  call f ev s = (fst (f s), snd (f s), [ev (fst (f s))]).
Proof. unfold call. now destruct (f s). Qed.

Lemma mutations_app (t1 t2 : list Event) :
  mutations (t1 ++ t2) = mutations t1 ++ mutations t2.
Proof. apply filter_app. Qed.

Lemma slept_app (t1 t2 : list Event) :
  slept (t1 ++ t2) = (slept t1 + slept t2)%Z.
Proof.
  induction t1 as [|ev t1 IH]; simpl; [reflexivity|].
  destruct ev; rewrite ?IH; lia.
Qed.

Lemma readonly_ret {A} (a : A) : readonly (@ret St A a).
Proof. intros s. reflexivity. Qed.

Lemma readonly_bind {A B} (m : M St A) (k : A -> M St B) :
  readonly m -> (forall a, readonly (k a)) -> readonly (bind m k).
Proof.
  intros Hm Hk s. rewrite bind_run. unfold trace_of at 1. simpl.
  now rewrite mutations_app, Hm, Hk.
Qed.

Lemma readonly_call {A} (f : St -> A * St) (ev : A -> Event) :
  (forall a, isMutating (ev a) = false) -> readonly (call f ev).
Proof.
  intros Hev s. rewrite call_run. unfold trace_of, mutations. simpl.
  now rewrite Hev.
Qed.

Section Preservation.
Variable R : St -> St -> Prop.
Hypothesis R_refl : forall s, R s s.
Hypothesis R_trans : forall a b c, R a b -> R b c -> R a c.

Lemma preserves_ret {A} (a : A) : preserves R (@ret St A a).
Proof. intros s. apply R_refl. Qed.

Lemma preserves_bind {A B} (m : M St A) (k : A -> M St B) :
  preserves R m -> (forall a, preserves R (k a)) -> preserves R (bind m k).
Proof.
  intros Hm Hk s. rewrite bind_run. unfold state_of at 1. simpl.
  eapply R_trans; [apply Hm | apply Hk].
Qed.

Lemma preserves_call {A} (f : St -> A * St) (ev : A -> Event) :
  (forall s, R s (snd (f s))) -> preserves R (call f ev).
Proof. intros Hf s. rewrite call_run. apply Hf. Qed.

End Preservation.

End Running.

Create HintDb ro.
#[local] Hint Resolve readonly_ret : ro.
#[local] Hint Extern 2 (readonly (call _ _)) =>
  (apply readonly_call; intros; reflexivity) : ro.
#[local] Hint Extern 3 (readonly (bind _ _)) =>
  (apply readonly_bind; [| intros ]) : ro.
#[local] Hint Extern 4 (readonly (match ?x with _ => _ end)) => destruct x : ro.
#[local] Hint Extern 4 (readonly (if ?x then _ else _)) => destruct x : ro.

(* ===================================================================== *)
(** ** The read operations *)
(* ===================================================================== *)

Section Reads.
Context {St : Type} `{EC2API St} `{Cluster St} `{Clock St}.

Lemma sleep_readonly (d : Duration) : readonly (wait.sleep d).
Proof. intros s. reflexivity. Qed.

Lemma poll_readonly {V} (ticks : nat) (interval : Duration)
  (condition : wait.ConditionFunc V) (v : V) :
  (forall v, readonly (condition v)) ->
  readonly (wait.poll ticks interval condition v).
Proof.
  intros Hc. revert v. induction ticks as [|ticks IH]; intros v; simpl.
  - apply readonly_bind; [apply Hc|]. intros [v' [done [e|]]]; simpl.
    + apply readonly_ret.
    + destruct done; apply readonly_ret.
  - apply readonly_bind; [apply sleep_readonly|]. intros _.
    apply readonly_bind; [apply Hc|]. intros [v' [done [e|]]]; simpl.
    + apply readonly_ret.
    + destruct done; [apply readonly_ret | apply IH].
Qed.

Lemma PollImmediate_readonly {V} (interval timeout : Duration)
  (condition : wait.ConditionFunc V) (v : V) :
  (forall v, readonly (condition v)) ->
  readonly (wait.PollImmediate interval timeout condition v).
Proof.
  intros Hc. unfold wait.PollImmediate.
  apply readonly_bind; [apply Hc|]. intros [v' [done [e|]]]; cbv beta iota zeta.
  - apply readonly_ret.
  - destruct done; [apply readonly_ret | now apply poll_readonly].
Qed.

Lemma getSubnets_readonly : readonly getSubnets.
Proof.
  unfold getSubnets. apply readonly_bind.
  - apply PollImmediate_readonly. intros v. unfold getSubnets_func.
    auto 10 with ro.
  - intros [subs [e|]]; apply readonly_ret.
Qed.

Lemma getVpc_readonly (ctx : Context) : readonly (getVpc ctx).
Proof. unfold getVpc. auto 20 with ro. Qed.

Lemma getSecurityGroup_readonly (secName : string) :
  readonly (getSecurityGroup secName).
Proof. unfold getSecurityGroup. auto 10 with ro. Qed.

Lemma GetCidr_readonly (ctx : Context) : readonly (GetCidr ctx).
Proof.
  unfold GetCidr. apply readonly_bind; [apply getVpc_readonly|].
  intros [[v|]|e]; apply readonly_ret.
Qed.

Lemma GetVPCSubnets_readonly (ctx : Context) : readonly (GetVPCSubnets ctx).
Proof.
  unfold GetVPCSubnets. apply readonly_bind; [apply getSubnets_readonly|].
  intros [subs|e]; [|apply readonly_ret].
  apply readonly_bind; [apply getVpc_readonly|].
  intros [[v|]|e]; try apply readonly_ret.
  destruct (GetVPCSubnets_loop v subs); apply readonly_ret.
Qed.

Lemma GetAllSubnetIDS_readonly (ctx : Context) : readonly (GetAllSubnetIDS ctx).
Proof.
  unfold GetAllSubnetIDS. apply readonly_bind; [apply GetVPCSubnets_readonly|].
  intros [subs|e]; [|apply readonly_ret].
  destruct (subIDs_loop subs); apply readonly_ret.
Qed.

Lemma GetPrivateSubnetIDS_readonly (ctx : Context) :
  readonly (GetPrivateSubnetIDS ctx).
Proof.
  unfold GetPrivateSubnetIDS. apply readonly_bind; [apply GetVPCSubnets_readonly|].
  intros [subs|e]; [|apply readonly_ret].
  destruct (regexp.Compile regexpStr); [|apply readonly_ret].
  destruct (subIDs_loop _); apply readonly_ret.
Qed.

(** Whatever the listings, the identity lookup and the passing of time
    leave alone, the read operations leave alone too. *)
Section ReadsPreserve.
Variable R : St -> St -> Prop.
Hypothesis R_refl : forall s, R s s.
Hypothesis R_trans : forall a b c, R a b -> R b c -> R a c.
Hypothesis R_DescribeVpcs : forall s, R s (snd (DescribeVpcs s)).
Hypothesis R_DescribeSubnets : forall s, R s (snd (DescribeSubnets s)).
Hypothesis R_GetClusterID : forall ctx s, R s (snd (GetClusterID ctx s)).
Hypothesis R_Sleep : forall d s, R s (Sleep d s).

Lemma getVpc_preserves (ctx : Context) : preserves R (getVpc ctx).
Proof.
  unfold getVpc.
  apply preserves_bind; auto using preserves_call.
  intros [out|e]; [|now apply preserves_ret].
  apply preserves_bind; auto using preserves_call.
  intros [clusterID|e]; [|now apply preserves_ret].
  destruct (getVpc_loop clusterID (Vpcs out)); now apply preserves_ret.
Qed.

Lemma getSubnets_func_preserves (v : list Subnet) : preserves R (getSubnets_func v).
Proof.
  unfold getSubnets_func.
  apply preserves_bind; auto using preserves_call.
  intros [out|e]; now apply preserves_ret.
Qed.

Lemma poll_preserves (ticks : nat) (interval : Duration) (v : list Subnet) :
  preserves R (wait.poll ticks interval getSubnets_func v).
Proof.
  revert v. induction ticks as [|ticks IH]; intros v; simpl.
  - apply preserves_bind; auto using getSubnets_func_preserves.
    intros [v' [done [e|]]]; simpl; [now apply preserves_ret|].
    destruct done; now apply preserves_ret.
  - apply preserves_bind; auto. { intros s. apply R_Sleep. }
    intros _. apply preserves_bind; auto using getSubnets_func_preserves.
    intros [v' [done [e|]]]; simpl; [now apply preserves_ret|].
    destruct done; [now apply preserves_ret | apply IH].
Qed.

Lemma getSubnets_preserves : preserves R getSubnets.
Proof.
  unfold getSubnets, wait.PollImmediate.
  apply preserves_bind; auto.
  - apply preserves_bind; auto using getSubnets_func_preserves.
    intros [v' [done [e|]]]; cbv beta iota zeta; [now apply preserves_ret|].
    destruct done; [now apply preserves_ret | apply poll_preserves].
  - intros [subs [e|]]; now apply preserves_ret.
Qed.

Lemma GetCidr_preserves (ctx : Context) : preserves R (GetCidr ctx).
Proof.
  unfold GetCidr. apply preserves_bind; auto using getVpc_preserves.
  intros [[v|]|e]; now apply preserves_ret.
Qed.

Lemma GetVPCSubnets_preserves (ctx : Context) : preserves R (GetVPCSubnets ctx).
Proof.
  unfold GetVPCSubnets. apply preserves_bind; auto using getSubnets_preserves.
  intros [subs|e]; [|now apply preserves_ret].
  apply preserves_bind; auto using getVpc_preserves.
  intros [[v|]|e]; try now apply preserves_ret.
  destruct (GetVPCSubnets_loop v subs); now apply preserves_ret.
Qed.

Lemma GetAllSubnetIDS_preserves (ctx : Context) : preserves R (GetAllSubnetIDS ctx).
Proof.
  unfold GetAllSubnetIDS. apply preserves_bind; auto using GetVPCSubnets_preserves.
  intros [subs|e]; [|now apply preserves_ret].
  destruct (subIDs_loop subs); now apply preserves_ret.
Qed.

Lemma GetPrivateSubnetIDS_preserves (ctx : Context) :
  preserves R (GetPrivateSubnetIDS ctx).
Proof.
  unfold GetPrivateSubnetIDS. apply preserves_bind; auto using GetVPCSubnets_preserves.
  intros [subs|e]; [|now apply preserves_ret].
  destruct (regexp.Compile regexpStr); [|now apply preserves_ret].
  destruct (subIDs_loop _); now apply preserves_ret.
Qed.

End ReadsPreserve.

(** [getVpc] never answers with a nil VPC and no error. *)
Lemma getVpc_not_nil (ctx : Context) (s : St) :
  result_of (getVpc ctx s) <> Ok None.
Proof.
  unfold getVpc. rewrite bind_run. unfold result_of at 1. simpl.
  rewrite call_run. unfold result_of at 2, state_of at 1. simpl.
  destruct (fst (DescribeVpcs s)) as [out|e]; [|discriminate].
  rewrite bind_run. unfold result_of at 1. simpl.
  rewrite call_run. unfold result_of at 2, state_of at 1. simpl.
  destruct (fst (GetClusterID ctx _)) as [clusterID|e]; [|discriminate].
  destruct (getVpc_loop clusterID (Vpcs out)); discriminate.
Qed.

(** [getVpc], run against a provider that lists [out] and a client that
    answers [clusterID]. *)
Lemma getVpc_run (ctx : Context) (s s1 s2 : St)
  (out : DescribeVpcsOutput) (clusterID : string) :
  DescribeVpcs s = (Ok out, s1) ->
  GetClusterID ctx s1 = (Ok clusterID, s2) ->
  getVpc ctx s
  = (match getVpc_loop clusterID (Vpcs out) with
     | Some foundVPC => Ok (Some foundVPC)
     | None => Err (New "error, no vpc found")
     end,
     s2,
     [EvDescribeVpcs (Ok out); EvGetClusterID ctx (Ok clusterID)]).
Proof.
  intros Hd Hc. unfold getVpc, bind, call. rewrite Hd, Hc.
  now destruct (getVpc_loop clusterID (Vpcs out)).
Qed.

End Reads.

(* ===================================================================== *)
(** ** The Network Locator *)
(* ===================================================================== *)

Lemma count_occ_private_ids_absent (subs : list Subnet) (id : string) :
  ~ In id (map SubnetId subs) ->
  count_occ string_dec
    (flat_map (fun sub => repeat (SubnetId sub) (privateTags sub)) subs) id = 0.
Proof.
  intros Hid. apply count_occ_not_In. intros Hin.
  apply in_flat_map in Hin as (sub & Hsub & Hrep).
  apply repeat_spec in Hrep. subst id.
  apply Hid, in_map, Hsub.
Qed.

Lemma count_occ_private_ids (subs : list Subnet) (sub : Subnet) :
  NoDup (map SubnetId subs) -> In sub subs ->
  count_occ string_dec
    (flat_map (fun sub => repeat (SubnetId sub) (privateTags sub)) subs)
    (SubnetId sub)
  = privateTags sub.
Proof.
  induction subs as [|x subs IH]; simpl; [intros _ []|].
  intros Hnd Hin. inversion Hnd as [|? ? Hx Hnd']; subst.
  rewrite count_occ_app. destruct Hin as [-> | Hin].
  - rewrite count_occ_repeat_eq by reflexivity.
    rewrite count_occ_private_ids_absent by assumption. lia.
  - rewrite count_occ_repeat_neq.
    + now rewrite IH.
    + intros Heq. apply Hx. rewrite <- Heq. now apply in_map.
Qed.

Lemma count_occ_private_ids_ge (subs : list Subnet) (sub : Subnet) :
  In sub subs ->
  privateTags sub
  <= count_occ string_dec
       (flat_map (fun sub => repeat (SubnetId sub) (privateTags sub)) subs)
       (SubnetId sub).
Proof.
  induction subs as [|x subs IH]; simpl; [intros []|].
  intros Hin. rewrite count_occ_app. destruct Hin as [-> | Hin].
  - rewrite count_occ_repeat_eq by reflexivity. lia.
  - specialize (IH Hin). lia.
Qed.

Lemma count_occ_private_ids_sum (subs : list Subnet) (id : string) :
  count_occ string_dec
    (flat_map (fun sub => repeat (SubnetId sub) (privateTags sub)) subs) id
  = list_sum (map privateTags (withId id subs)).
Proof.
  unfold withId. induction subs as [|x subs IH]; [reflexivity|].
  simpl. rewrite count_occ_app, IH.
  destruct (String.eqb_spec (SubnetId x) id) as [Heq | Hne].
  - rewrite count_occ_repeat_eq by (symmetry; exact Heq). reflexivity.
  - rewrite count_occ_repeat_neq by (intros Heq; apply Hne; symmetry; exact Heq).
    reflexivity.
Qed.

Lemma withId_absent (subs : list Subnet) (id : string) :
  count_occ string_dec (map SubnetId subs) id = 0 -> withId id subs = [].
Proof.
  unfold withId. induction subs as [|x subs IH]; [reflexivity|].
  simpl. destruct (string_dec (SubnetId x) id) as [Heq | Hne]; [discriminate|].
  intros Hc. destruct (String.eqb_spec (SubnetId x) id); [contradiction | auto].
Qed.

Lemma withId_once (subs : list Subnet) (sub : Subnet) :
  In sub subs ->
  count_occ string_dec (map SubnetId subs) (SubnetId sub) = 1 ->
  withId (SubnetId sub) subs = [sub].
Proof.
  unfold withId. induction subs as [|x subs IH]; [intros []|].
  simpl. intros Hin Hc.
  destruct (string_dec (SubnetId x) (SubnetId sub)) as [Heq | Hne].
  - injection Hc as Hc.
    destruct (String.eqb_spec (SubnetId x) (SubnetId sub)); [|contradiction].
    fold (withId (SubnetId sub) subs). rewrite withId_absent by exact Hc.
    destruct Hin as [-> | Hin]; [reflexivity|].
    exfalso. apply (in_map SubnetId) in Hin.
    apply (count_occ_In string_dec) in Hin. lia.
  - destruct (String.eqb_spec (SubnetId x) (SubnetId sub)); [contradiction|].
    destruct Hin as [-> | Hin]; [contradiction|]. now apply IH.
Qed.

Lemma private_ids_In (subs : list Subnet) (id : string) :
  In id (flat_map (fun sub => repeat (SubnetId sub) (privateTags sub)) subs) <->
  exists sub, In sub subs /\ SubnetId sub = id /\ isPrivate sub = true.
Proof.
  rewrite in_flat_map. split; intros (sub & Hsub & Hrest); exists sub; split; auto.
  - destruct (privateTags sub) as [|n] eqn:Hn; simpl in Hrest; [contradiction|].
    split.
    + destruct Hrest as [Hid | Hrest]; [assumption|].
      now apply repeat_spec in Hrest.
    + unfold isPrivate, privateTags in *. apply existsb_exists.
      destruct (filter _ (Subnet_Tags sub)) as [|tag tags] eqn:Hf; [discriminate|].
      assert (Hin : In tag (filter (fun tag => matchesPrivate (Value tag))
                                   (Subnet_Tags sub)))
        by (rewrite Hf; now left).
      apply filter_In in Hin. now exists tag.
  - destruct Hrest as [<- Hp]. unfold isPrivate, privateTags in *.
    apply existsb_exists in Hp as (tag & Htag & Hm).
    assert (Hin : In tag (filter (fun tag => matchesPrivate (Value tag))
                                 (Subnet_Tags sub)))
      by (apply filter_In; auto).
    destruct (filter _ (Subnet_Tags sub)); [contradiction|]. now left.
Qed.

Section Locator.
Context {St : Type} `{EC2API St} `{Cluster St} `{Clock St}.

(** C4.  [getVpc] looks at every listed VPC and answers with the one that
    has a tag whose value is ["<identity>-vpc"]; of several such VPCs it
    answers with the last of the listing; when there is none it fails with the
    not-found error ["error, no vpc found"] and gives no VPC. *)
Theorem getVpc_last_match (ctx : Context) (s s1 s2 : St)
  (out : DescribeVpcsOutput) (clusterID : string) :
  DescribeVpcs s = (Ok out, s1) ->
  GetClusterID ctx s1 = (Ok clusterID, s2) ->
  (forall vpc,
      result_of (getVpc ctx s) = Ok (Some vpc) <->
      exists pre post,
        Vpcs out = pre ++ vpc :: post
        /\ vpcMatches clusterID vpc = true
        /\ forallb (fun later => negb (vpcMatches clusterID later)) post = true)
  /\ ((forall vpc, In vpc (Vpcs out) -> vpcMatches clusterID vpc = false) <->
      result_of (getVpc ctx s) = Err (New "error, no vpc found")).
Proof.
  intros Hd Hc. rewrite (getVpc_run ctx s s1 s2 out clusterID Hd Hc). unfold result_of. simpl.
  rewrite getVpc_loop_find. split.
  - intros vpc. rewrite <- find_rev_last.
    destruct (find _ _); split; congruence.
  - destruct (find (vpcMatches clusterID) (rev (Vpcs out))) as [v|] eqn:Hf.
    + split; [|discriminate]. intros Hnone.
      apply find_some in Hf as [Hin Hv]. apply in_rev in Hin.
      rewrite (Hnone v Hin) in Hv. discriminate.
    + split; [reflexivity|]. intros _ vpc Hin.
      apply (find_none _ _ Hf). now apply in_rev in Hin.
Qed.

(** [GetVPCSubnets], once the poll has listed [subs]. *)
Lemma GetVPCSubnets_run (ctx : Context) (s s1 : St)
  (subs : list Subnet) (t1 : list Event) :
  getSubnets s = (Ok subs, s1, t1) ->
  result_of (GetVPCSubnets ctx s)
  = match result_of (getVpc ctx s1) with
    | Err err => Err (Wrap err "error getting vpcs")
    | Ok None => Err (New "error, unable to find a vpc")
    | Ok (Some foundVPC) =>
        match filter (associated foundVPC) subs with
        | [] => Err (New "error, unable to find subnets associated with cluster vpc")
        | associatedSubs => Ok associatedSubs
        end
    end.
Proof.
  intros Hs. unfold GetVPCSubnets. rewrite bind_run, Hs.
  unfold result_of at 1 2 3, state_of at 1 2. simpl.
  rewrite bind_run. unfold result_of at 1. simpl.
  destruct (result_of (getVpc ctx s1)) as [[vpc|]|e]; try reflexivity.
  rewrite GetVPCSubnets_loop_filter.
  now destruct (filter (associated vpc) subs).
Qed.

Lemma GetVPCSubnets_never_empty (ctx : Context) (s : St) :
  result_of (GetVPCSubnets ctx s) <> Ok [].
Proof.
  unfold GetVPCSubnets. rewrite bind_run. unfold result_of at 1. simpl.
  destruct (result_of (getSubnets s)) as [subs|e]; [|discriminate].
  rewrite bind_run. unfold result_of at 1. simpl.
  destruct (result_of (getVpc ctx _)) as [[vpc|]|e]; try discriminate.
  destruct (GetVPCSubnets_loop vpc subs); discriminate.
Qed.

(** C6.  [GetVPCSubnets] answers with exactly the listed subnets whose
    owning VPC is the cluster's VPC, in listing order.  It never answers with
    an empty list: when no listed subnet belongs to the VPC, and when the VPC
    itself was not found, it fails with a not-found error. *)
Theorem GetVPCSubnets_associated (ctx : Context) (s s1 : St)
  (subs : list Subnet) (t1 : list Event) :
  getSubnets s = (Ok subs, s1, t1) ->
  (forall vpc,
      result_of (getVpc ctx s1) = Ok (Some vpc) ->
      (filter (associated vpc) subs <> [] ->
       result_of (GetVPCSubnets ctx s) = Ok (filter (associated vpc) subs))
      /\ (filter (associated vpc) subs = [] ->
          result_of (GetVPCSubnets ctx s)
          = Err (New "error, unable to find subnets associated with cluster vpc")))
  /\ (result_of (getVpc ctx s1) = Err (New "error, no vpc found") ->
      result_of (GetVPCSubnets ctx s)
      = Err (Wrap (New "error, no vpc found") "error getting vpcs"))
  /\ result_of (GetVPCSubnets ctx s) <> Ok [].
Proof.
  intros Hs. rewrite (GetVPCSubnets_run ctx s s1 subs t1 Hs).
  split; [intros vpc Hvpc; rewrite Hvpc; split | split].
  - intros Hne.
    destruct (filter (associated vpc) subs); [contradiction | reflexivity].
  - intros He. now rewrite He.
  - intros Hv. now rewrite Hv.
  - rewrite <- (GetVPCSubnets_run ctx s s1 subs t1 Hs). apply GetVPCSubnets_never_empty.
Qed.

(** [GetPrivateSubnetIDS], once [GetVPCSubnets] has answered [subs]. *)
Lemma GetPrivateSubnetIDS_run (ctx : Context) (s s1 : St)
  (subs : list Subnet) (t1 : list Event) :
  GetVPCSubnets ctx s = (Ok subs, s1, t1) ->
  GetPrivateSubnetIDS ctx s
  = (match flat_map (fun sub => repeat (SubnetId sub) (privateTags sub)) subs with
     | [] => Err (New "failed to get list of private subnet ids")
     | subIDs => Ok subIDs
     end, s1, t1).
Proof.
  intros Hs. unfold GetPrivateSubnetIDS, bind. rewrite Hs.
  rewrite <- privateSubs_ids.
  destruct (regexp.Compile regexpStr) as [anReg|e] eqn:Hre.
  - destruct (subIDs_loop (privateSubs_loop anReg subs));
      simpl; now rewrite app_nil_r.
  - destruct Compile_regexpStr as [anReg Hok]. congruence.
Qed.

(** C7.  [GetPrivateSubnetIDS] lists an identifier exactly when it is the
    identifier of an associated subnet one of whose tag values matches the
    pattern [regexpStr]; when no associated subnet has such a tag it
    fails with the not-found error ["failed to get list of private subnet
    ids"], and it never answers with an empty list.  A value matches the
    pattern exactly when it has a run of word characters with ["private"] in
    it that no word character precedes or follows; upper and lower case
    differ. *)
Theorem GetPrivateSubnetIDS_private (ctx : Context) (s s1 : St)
  (subs : list Subnet) (t1 : list Event) :
  GetVPCSubnets ctx s = (Ok subs, s1, t1) ->
  (forall value, matchesPrivate value = true <-> privateWord value)
  /\ ((exists sub, In sub subs /\ isPrivate sub = true) ->
   exists ids,
     result_of (GetPrivateSubnetIDS ctx s) = Ok ids
     /\ forall id,
          In id ids <->
          exists sub, In sub subs /\ SubnetId sub = id /\ isPrivate sub = true)
  /\ ((forall sub, In sub subs -> isPrivate sub = false) ->
      result_of (GetPrivateSubnetIDS ctx s)
      = Err (New "failed to get list of private subnet ids"))
  /\ result_of (GetPrivateSubnetIDS ctx s) <> Ok [].
Proof.
  intros Hs. split; [exact matchesPrivate_word|].
  rewrite (GetPrivateSubnetIDS_run ctx s s1 subs t1 Hs). unfold result_of. simpl.
  set (ids := flat_map _ subs).
  assert (Hin : forall id,
             In id ids <->
             exists sub, In sub subs /\ SubnetId sub = id /\ isPrivate sub = true)
    by (intros id; apply private_ids_In).
  repeat split.
  - intros (sub & Hsub & Hp). exists ids. split; [|exact Hin].
    destruct ids as [|id ids']; [|reflexivity].
    exfalso. apply (proj2 (Hin (SubnetId sub))). now exists sub.
  - intros Hnone. destruct ids as [|id ids']; [reflexivity|].
    destruct (proj1 (Hin id) (or_introl eq_refl)) as (sub & Hsub & _ & Hp).
    rewrite (Hnone sub Hsub) in Hp. discriminate.
  - destruct ids; discriminate.
Qed.

(** C10, as the code has it.  [GetPrivateSubnetIDS] appends a subnet once
    for each of its matching tags and never looks whether an identifier is
    there already.  A subnet with [k > 1] matching tag values therefore has
    its identifier at least [k] times in the answer: as many times as the
    associated subnets with that identifier have matching tag values in all,
    which is exactly [k] when the identifier is listed once; the answer then
    has duplicates.  The answer is free of duplicates only when no associated
    subnet has more than one matching tag value. *)
Theorem GetPrivateSubnetIDS_repeats (ctx : Context) (s s1 : St)
  (subs : list Subnet) (t1 : list Event) :
  GetVPCSubnets ctx s = (Ok subs, s1, t1) ->
  (forall sub,
      In sub subs -> 1 < privateTags sub ->
      exists ids,
        result_of (GetPrivateSubnetIDS ctx s) = Ok ids
        /\ ids = flat_map (fun sub => repeat (SubnetId sub) (privateTags sub)) subs
        /\ privateTags sub <= count_occ string_dec ids (SubnetId sub)
        /\ count_occ string_dec ids (SubnetId sub)
           = list_sum (map privateTags (withId (SubnetId sub) subs))
        /\ (count_occ string_dec (map SubnetId subs) (SubnetId sub) = 1 ->
            count_occ string_dec ids (SubnetId sub) = privateTags sub)
        /\ ~ NoDup ids)
  /\ (forall ids,
         result_of (GetPrivateSubnetIDS ctx s) = Ok ids ->
         (NoDup ids -> forall sub, In sub subs -> privateTags sub <= 1)
         /\ (NoDup (map SubnetId subs) ->
             (forall sub, In sub subs -> privateTags sub <= 1) -> NoDup ids)).
Proof.
  intros Hs. rewrite (GetPrivateSubnetIDS_run ctx s s1 subs t1 Hs).
  unfold result_of. simpl.
  set (ids := flat_map _ subs).
  assert (Hge : forall sub, In sub subs ->
            privateTags sub <= count_occ string_dec ids (SubnetId sub))
    by (intros sub Hsub; now apply count_occ_private_ids_ge).
  split.
  - intros sub Hsub Hk. exists ids. specialize (Hge sub Hsub).
    split; [destruct ids; [simpl in Hge; lia | reflexivity]|].
    split; [reflexivity|]. split; [exact Hge|].
    split; [apply count_occ_private_ids_sum|]. split.
    + intros Honce. unfold ids.
      rewrite count_occ_private_ids_sum, withId_once by assumption.
      simpl. lia.
    + intros Hnodup.
      apply (proj1 (NoDup_count_occ string_dec ids)) with (x := SubnetId sub) in Hnodup.
      lia.
  - intros ids' Hids.
    assert (ids' = ids) by (destruct ids; congruence). subst ids'.
    rewrite (NoDup_count_occ string_dec). split.
    + intros Hle sub Hsub. specialize (Hge sub Hsub). specialize (Hle (SubnetId sub)). lia.
    + intros Hnd Hle id.
      destruct (in_dec string_dec id (map SubnetId subs)) as [Hin | Hout].
      * apply in_map_iff in Hin as (sub & <- & Hsub).
        unfold ids. rewrite count_occ_private_ids by assumption. now apply Hle.
      * unfold ids. rewrite count_occ_private_ids_absent by assumption. lia.
Qed.

End Locator.

(* ===================================================================== *)
(** ** The Eventually-Consistent Lister *)
(* ===================================================================== *)

Section Lister.
Context {St : Type} `{EC2API St} `{Cluster St} `{Clock St}.

Lemma getSubnets_func_run (subs : list Subnet) (s : St) :
  getSubnets_func subs s
  = (match fst (DescribeSubnets s) with
     | Err _ => (subs, (false, None))
     | Ok listOutput => (Subnets listOutput, (true, None))
     end,
     snd (DescribeSubnets s),
     [EvDescribeSubnets (fst (DescribeSubnets s))]).
Proof.
  unfold getSubnets_func, bind, call.
  destruct (DescribeSubnets s) as [[out|e] s']; reflexivity.
Qed.

Lemma slept_tickTrace (interval : Duration)
  (replies : list (Result DescribeSubnetsOutput)) :
  slept (tickTrace interval replies) = (interval * Z.of_nat (List.length replies))%Z.
Proof.
  induction replies as [|r replies IH]; [simpl; lia|].
  change (slept (tickTrace interval (r :: replies)))
    with (interval + slept (tickTrace interval replies))%Z.
  rewrite IH. simpl List.length. lia.
Qed.

Lemma slept_listings (replies : list (Result DescribeSubnetsOutput)) :
  slept (map EvDescribeSubnets replies) = 0%Z.
Proof. induction replies as [|r replies IH]; [reflexivity | exact IH]. Qed.

Lemma slept_restTrace (n : nat) (interval : Duration)
  (replies : list (Result DescribeSubnetsOutput)) :
  slept (restTrace n interval replies)
  = (interval * Z.of_nat (Nat.min n (List.length replies)))%Z.
Proof.
  unfold restTrace.
  rewrite slept_app, slept_tickTrace, slept_listings, length_firstn. lia.
Qed.

Lemma restTrace_nil (n : nat) (interval : Duration) : restTrace n interval [] = [].
Proof. unfold restTrace. now rewrite firstn_nil, skipn_nil. Qed.

Lemma restTrace_tick (n : nat) (interval : Duration)
  (r : Result DescribeSubnetsOutput) (replies : list (Result DescribeSubnetsOutput)) :
  restTrace (S n) interval (r :: replies)
  = EvSleep interval :: EvDescribeSubnets r :: restTrace n interval replies.
Proof. reflexivity. Qed.

Lemma restTrace_last (n : nat) (interval : Duration)
  (r : Result DescribeSubnetsOutput) :
  restTrace (S n) interval [r] = [EvSleep interval; EvDescribeSubnets r].
Proof. now rewrite restTrace_tick, restTrace_nil. Qed.

Lemma poll_close (interval : Duration) (v : list Subnet) (s : St) :
  wait.poll 0 interval getSubnets_func v s
  = match DescribeSubnets s with
    | (Ok out, s') => ((Subnets out, None), s', [EvDescribeSubnets (Ok out)])
    | (Err e, s') => ((v, Some ErrWaitTimeout), s', [EvDescribeSubnets (Err e)])
    end.
Proof.
  simpl. unfold bind. rewrite getSubnets_func_run.
  destruct (DescribeSubnets s) as [[out|e] s']; reflexivity.
Qed.

Lemma poll_step (interval : Duration) (ticks : nat) (v : list Subnet) (s : St) :
  wait.poll (S ticks) interval getSubnets_func v s
  = match DescribeSubnets (Sleep interval s) with
    | (Ok out, s') =>
        ((Subnets out, None), s', [EvSleep interval; EvDescribeSubnets (Ok out)])
    | (Err e, s') =>
        let '(r, s'', t) := wait.poll ticks interval getSubnets_func v s' in
        (r, s'', EvSleep interval :: EvDescribeSubnets (Err e) :: t)
    end.
Proof.
  simpl. unfold bind, wait.sleep. rewrite getSubnets_func_run.
  destruct (DescribeSubnets (Sleep interval s)) as [[out|e] s']; simpl; [reflexivity|].
  now destruct (wait.poll ticks interval getSubnets_func v s') as [[r s''] t].
Qed.

Lemma getSubnets_step (s : St) :
  getSubnets s
  = match DescribeSubnets s with
    | (Ok out, s') => (Ok (Subnets out), s', [EvDescribeSubnets (Ok out)])
    | (Err e, s') =>
        let '(r, s'', t) :=
          wait.poll (Z.to_nat ((Minute * 5) / (Second * 5))%Z) (Second * 5)%Z
                    getSubnets_func [] s' in
        (match snd r with
         | Some err => Err err
         | None => Ok (fst r)
         end, s'', EvDescribeSubnets (Err e) :: t)
    end.
Proof.
  unfold getSubnets, wait.PollImmediate, bind. rewrite getSubnets_func_run.
  generalize (Z.to_nat ((Minute * 5) / (Second * 5))%Z) as ticks. intros ticks.
  destruct (DescribeSubnets s) as [[out|e] s']; simpl; [reflexivity|].
  destruct (wait.poll ticks _ getSubnets_func [] s') as [[[subs [err|]] s''] t]; simpl;
    now rewrite app_nil_r.
Qed.

(** What is left of a poll with [n] ticks to go. *)
Lemma poll_getSubnets (interval : Duration) (n : nat) :
  forall (v : list Subnet) (s : St),
  exists replies,
    trace_of (wait.poll n interval getSubnets_func v s) = restTrace n interval replies
    /\ answered s (trace_of (wait.poll n interval getSubnets_func v s))
                (state_of (wait.poll n interval getSubnets_func v s))
    /\ pollOutcome n v replies
         (result_of (wait.poll n interval getSubnets_func v s)).
Proof.
  induction n as [|n IH]; intros v s.
  - rewrite poll_close.
    destruct (DescribeSubnets s) as [[out|e] s'] eqn:Hd;
      unfold trace_of, state_of, result_of; cbn [fst snd].
    + exists [Ok out]. split; [reflexivity|]. split.
      * eapply answered_listing; [exact Hd | apply answered_nil].
      * left. exists [], out. repeat split. simpl. lia.
    + exists [Err e]. split; [reflexivity|]. split.
      * eapply answered_listing; [exact Hd | apply answered_nil].
      * right. exists [e]. repeat split.
  - rewrite poll_step.
    destruct (DescribeSubnets (Sleep interval s)) as [[out|e] s'] eqn:Hd.
    + unfold trace_of, state_of, result_of; cbn [fst snd].
      exists [Ok out]. split; [now rewrite restTrace_last|]. split.
      * apply answered_sleep.
        eapply answered_listing; [exact Hd | apply answered_nil].
      * left. exists [], out. repeat split. simpl. lia.
    + destruct (IH v s') as (replies & Htr & Hans & Hout).
      destruct (wait.poll n interval getSubnets_func v s') as [[r s''] t].
      unfold trace_of, state_of, result_of in *. cbn [fst snd] in *.
      exists (Err e :: replies). split; [now rewrite restTrace_tick, Htr|]. split.
      * apply answered_sleep.
        eapply answered_listing; [exact Hd | exact Hans].
      * destruct Hout as [(causes & out & -> & Hlen & Hr) | (causes & -> & Hlen & Hr)].
        -- left. exists (e :: causes), out. repeat split; auto. simpl. lia.
        -- right. exists (e :: causes). repeat split; auto. simpl. lia.
Qed.

Lemma getSubnets_replies (s : St) :
  exists replies,
    trace_of (getSubnets s) = pollTrace budgetTicks (Second * 5)%Z replies
    /\ answered s (trace_of (getSubnets s)) (state_of (getSubnets s))
    /\ ((exists causes out,
            replies = failed causes ++ [Ok out]
            /\ List.length replies <= maxAttempts
            /\ result_of (getSubnets s) = Ok (Subnets out))
        \/ (exists causes,
               replies = failed causes
               /\ List.length replies = maxAttempts
               /\ result_of (getSubnets s) = Err ErrWaitTimeout)).
Proof.
  rewrite getSubnets_step. unfold maxAttempts, budgetTicks.
  generalize (Z.to_nat ((Minute * 5) / (Second * 5))%Z) as n. intros n.
  destruct (DescribeSubnets s) as [[out|e] s'] eqn:Hd.
  - unfold trace_of, state_of, result_of; cbn [fst snd].
    exists [Ok out]. split; [unfold pollTrace; now rewrite restTrace_nil|]. split.
    + eapply answered_listing; [exact Hd | apply answered_nil].
    + left. exists [], out. repeat split. simpl. lia.
  - destruct (poll_getSubnets (Second * 5)%Z n [] s')
      as (replies & Htr & Hans & Hout).
    destruct (wait.poll n _ getSubnets_func [] s') as [[r s''] t].
    unfold trace_of, state_of, result_of in *. cbn [fst snd] in *.
    exists (Err e :: replies). split; [unfold pollTrace; now rewrite Htr|]. split.
    + eapply answered_listing; [exact Hd | exact Hans].
    + destruct Hout as [(causes & out & -> & Hlen & ->) | (causes & -> & Hlen & ->)].
      * left. exists (e :: causes), out. repeat split; auto. simpl. lia.
      * right. exists (e :: causes). repeat split; auto. simpl. lia.
Qed.




End Lister.

(* ===================================================================== *)
(** ** Security Posture Convergence *)
(* ===================================================================== *)

Lemma DeepEqual_eq (x y : option IpPermission) :
  DeepEqual x y = true <-> x = y.
Proof.
  unfold DeepEqual.
  destruct (option_eq_dec IpPermission_eq_dec x y); split; congruence.
Qed.

(** Equal to the wanted permission means equal in each of the seven
    fields. *)
Lemma DeepEqual_fields (p : IpPermission) (cidr : string) :
  DeepEqual (Some p) (Some (ipPermission cidr)) = true <->
  FromPort p = None
  /\ IpProtocol p = Some "-1"
  /\ IpRanges p = Some [Some {| CidrIp := Some cidr; IpRange_Description := None |}]
  /\ Ipv6Ranges p = None
  /\ PrefixListIds p = None
  /\ ToPort p = None
  /\ UserIdGroupPairs p = None.
Proof.
  rewrite DeepEqual_eq. destruct p; simpl. split.
  - intros [= -> -> -> -> -> -> ->]. repeat split.
  - intros (-> & -> & -> & -> & -> & -> & ->). reflexivity.
Qed.

Lemma existsb_DeepEqual (perm : IpPermission) (perms : list (option IpPermission)) :
  existsb (fun p => DeepEqual p (Some perm)) perms = true <-> In (Some perm) perms.
Proof.
  rewrite existsb_exists. split.
  - intros (p & Hin & Heq). apply DeepEqual_eq in Heq. now subst p.
  - intros Hin. exists (Some perm). split; [assumption|]. now apply DeepEqual_eq.
Qed.

Lemma getSecurityGroup_loop_first (secName : string)
  (before after : list SecurityGroup) (sg : SecurityGroup) :
  GroupName sg = secName ->
  (forall g, In g before -> GroupName g <> secName) ->
  getSecurityGroup_loop secName (before ++ sg :: after) = Some sg.
Proof.
  intros Hname Hbefore. unfold getSecurityGroup_loop. apply find_split.
  exists before, after. repeat split.
  - now apply String.eqb_eq.
  - apply forallb_forall. intros g Hg. apply negb_true_iff, String.eqb_neq.
    now apply Hbefore.
Qed.

Lemma getSecurityGroup_loop_none (secName : string) (secGroups : list SecurityGroup) :
  (forall g, In g secGroups -> GroupName g <> secName) ->
  getSecurityGroup_loop secName secGroups = None.
Proof.
  intros Hnone. unfold getSecurityGroup_loop. apply find_none_iff.
  intros g Hg. apply String.eqb_neq. now apply Hnone.
Qed.

Section Convergence.
Context {St : Type} `{EC2API St} `{Cluster St} `{Clock St}.

(** [SetupSecurityGroup] up to the point where it knows whether the group
    exists. *)
Lemma SetupSecurityGroup_run (ctx : Context) (s0 s1 s2 s3 s4 : St) (t3 : list Event)
  (clusterID secName : string) (vpc : Vpc) (out : DescribeSecurityGroupsOutput) :
  GetClusterID ctx s0 = (Ok clusterID, s1) ->
  BuildInfraName ctx defaultSecurityGroupPostfix DefaultAwsIdentifierLength s1
  = (Ok secName, s2) ->
  getVpc ctx s2 = (Ok (Some vpc), s3, t3) ->
  DescribeSecurityGroups s3 = (Ok out, s4) ->
  let reads := lookups ctx clusterID secName DefaultAwsIdentifierLength t3 out in
  SetupSecurityGroup ctx s0
  = match getSecurityGroup_loop secName (SecurityGroups out) with
    | None =>
        let input := createInput clusterID secName (Vpc_VpcId vpc) in
        (afterCall (fst (CreateSecurityGroup input s4)) "error creating security group",
         snd (CreateSecurityGroup input s4),
         reads ++ [EvCreateSecurityGroup input (fst (CreateSecurityGroup input s4))])
    | Some foundSecGroup =>
        if existsb (fun perm => DeepEqual perm (Some (ipPermission (CidrBlock vpc))))
                   (IpPermissions foundSecGroup)
        then (Ok tt, s4, reads)
        else
          let input := authorizeInput (GroupId foundSecGroup) (CidrBlock vpc) in
          (afterCall (fst (AuthorizeSecurityGroupIngress input s4))
                     "error authorizing security group ingress",
           snd (AuthorizeSecurityGroupIngress input s4),
           reads ++ [EvAuthorizeSecurityGroupIngress input
                       (fst (AuthorizeSecurityGroupIngress input s4))])
    end.
Proof.
  intros Hid Hname Hvpc Hsg reads.
  unfold SetupSecurityGroup, GetCidr, getSecurityGroup, bind, call, ret.
  rewrite Hid, Hname, Hvpc. cbv beta iota. rewrite Hsg. cbv beta iota.
  destruct (getSecurityGroup_loop secName (SecurityGroups out)) as [sg|].
  - fold (authorizeInput (GroupId sg) (CidrBlock vpc)).
    destruct (existsb _ (IpPermissions sg)).
    + subst reads. simpl. now rewrite !app_nil_r.
    + destruct (AuthorizeSecurityGroupIngress _ s4) as [[u|e] s5];
        subst reads; simpl; now rewrite !app_nil_r, <- ?app_assoc.
  - fold (createInput clusterID secName (Vpc_VpcId vpc)).
    destruct (CreateSecurityGroup _ s4) as [[u|e] s5];
      subst reads; simpl; now rewrite !app_nil_r, <- ?app_assoc.
Qed.

Lemma lookups_readonly (ctx : Context) (s s' : St) (clusterID secName : string)
  (r : Result (option Vpc)) (t : list Event) (out : DescribeSecurityGroupsOutput) :
  getVpc ctx s = (r, s', t) ->
  mutations (lookups ctx clusterID secName DefaultAwsIdentifierLength t out) = [].
Proof.
  intros Hrun. unfold lookups, mutations. simpl. rewrite filter_app. simpl.
  rewrite app_nil_r.
  change t with (trace_of (r, s', t)). rewrite <- Hrun.
  apply getVpc_readonly.
Qed.

(** C3.  When the provider lists no security group of exactly the derived
    name, [SetupSecurityGroup] makes one mutating call, a create call that
    carries the derived name, a description naming the cluster and the
    identifier of the cluster's VPC.  The create call is the last thing it
    does: it authorizes nothing in this invocation, it succeeds when the
    create call does, and it leaves the provider in the state the create call
    left it in. *)
Theorem SetupSecurityGroup_creates (ctx : Context) (s0 s1 s2 s3 s4 : St)
  (t3 : list Event) (clusterID secName : string) (vpc : Vpc)
  (out : DescribeSecurityGroupsOutput) :
  GetClusterID ctx s0 = (Ok clusterID, s1) ->
  BuildInfraName ctx defaultSecurityGroupPostfix DefaultAwsIdentifierLength s1
  = (Ok secName, s2) ->
  getVpc ctx s2 = (Ok (Some vpc), s3, t3) ->
  DescribeSecurityGroups s3 = (Ok out, s4) ->
  (forall g, In g (SecurityGroups out) -> GroupName g <> secName) ->
  let input := createInput clusterID secName (Vpc_VpcId vpc) in
  let reply := fst (CreateSecurityGroup input s4) in
  (exists reads,
      mutations reads = []
      /\ trace_of (SetupSecurityGroup ctx s0)
         = reads ++ [EvCreateSecurityGroup input reply])
  /\ mutations (trace_of (SetupSecurityGroup ctx s0))
     = [EvCreateSecurityGroup input reply]
  /\ (isOk reply = true -> result_of (SetupSecurityGroup ctx s0) = Ok tt)
  /\ (forall err, reply = Err err ->
      result_of (SetupSecurityGroup ctx s0)
      = Err (Wrap err "error creating security group"))
  /\ state_of (SetupSecurityGroup ctx s0) = snd (CreateSecurityGroup input s4).
Proof.
  intros Hid Hname Hvpc Hsg Hnone input reply.
  rewrite (SetupSecurityGroup_run ctx s0 s1 s2 s3 s4 t3 clusterID secName vpc out Hid Hname Hvpc Hsg).
  rewrite getSecurityGroup_loop_none by exact Hnone.
  assert (Hreads := lookups_readonly ctx s2 s3 clusterID secName _ t3 out Hvpc).
  cbv zeta. set (reads := lookups _ _ _ _ _ _) in *.
  fold input. fold reply. unfold trace_of, result_of, state_of. cbn [fst snd].
  split; [|split; [|split; [|split]]].
  - eexists. split; [exact Hreads | reflexivity].
  - rewrite mutations_app, Hreads. reflexivity.
  - destruct reply; [reflexivity | discriminate].
  - intros err ->. reflexivity.
  - reflexivity.
Qed.

(** C2.  When the provider lists the security group of the derived name,
    [SetupSecurityGroup] builds the permission it wants (protocol ["-1"], one
    range, the CIDR of the cluster's VPC) and looks for it among the group's
    permissions.  If one of them equals it in every field, no mutating call is
    made and the provider is left as the listing of the groups left it.  If
    none does, exactly one mutating call is made: an authorize call for that
    group with that one permission, and the provider is left in the state that
    call left it in.  Equal means equal field by field, ranges compared as
    text. *)
Theorem SetupSecurityGroup_authorizes (ctx : Context) (s0 s1 s2 s3 s4 : St)
  (t3 : list Event) (clusterID secName : string) (vpc : Vpc)
  (out : DescribeSecurityGroupsOutput)
  (before after : list SecurityGroup) (sg : SecurityGroup) :
  GetClusterID ctx s0 = (Ok clusterID, s1) ->
  BuildInfraName ctx defaultSecurityGroupPostfix DefaultAwsIdentifierLength s1
  = (Ok secName, s2) ->
  getVpc ctx s2 = (Ok (Some vpc), s3, t3) ->
  DescribeSecurityGroups s3 = (Ok out, s4) ->
  SecurityGroups out = before ++ sg :: after ->
  GroupName sg = secName ->
  (forall g, In g before -> GroupName g <> secName) ->
  let wanted := ipPermission (CidrBlock vpc) in
  let input := authorizeInput (GroupId sg) (CidrBlock vpc) in
  let reply := fst (AuthorizeSecurityGroupIngress input s4) in
  (forall p,
      DeepEqual (Some p) (Some wanted) = true <->
      FromPort p = None
      /\ IpProtocol p = Some "-1"
      /\ IpRanges p
         = Some [Some {| CidrIp := Some (CidrBlock vpc); IpRange_Description := None |}]
      /\ Ipv6Ranges p = None
      /\ PrefixListIds p = None
      /\ ToPort p = None
      /\ UserIdGroupPairs p = None)
  /\ AuthorizeSecurityGroupIngressInput_IpPermissions input = [Some wanted]
  /\ (In (Some wanted) (IpPermissions sg) ->
      mutations (trace_of (SetupSecurityGroup ctx s0)) = []
      /\ result_of (SetupSecurityGroup ctx s0) = Ok tt
      /\ state_of (SetupSecurityGroup ctx s0) = s4)
  /\ (~ In (Some wanted) (IpPermissions sg) ->
      mutations (trace_of (SetupSecurityGroup ctx s0))
      = [EvAuthorizeSecurityGroupIngress input reply]
      /\ (exists reads,
             mutations reads = []
             /\ trace_of (SetupSecurityGroup ctx s0)
                = reads ++ [EvAuthorizeSecurityGroupIngress input reply])
      /\ result_of (SetupSecurityGroup ctx s0)
         = afterCall reply "error authorizing security group ingress"
      /\ state_of (SetupSecurityGroup ctx s0)
         = snd (AuthorizeSecurityGroupIngress input s4)).
Proof.
  intros Hid Hname Hvpc Hsg Hlist Hsgname Hbefore wanted input reply.
  rewrite (SetupSecurityGroup_run ctx s0 s1 s2 s3 s4 t3 clusterID secName vpc out Hid Hname Hvpc Hsg).
  rewrite Hlist, getSecurityGroup_loop_first by assumption.
  assert (Hreads := lookups_readonly ctx s2 s3 clusterID secName _ t3 out Hvpc).
  cbv zeta. set (reads := lookups _ _ _ _ _ _) in *.
  fold wanted. fold input. fold reply.
  split; [intros p; apply DeepEqual_fields|]. split; [reflexivity|]. split.
  - intros Hin. apply existsb_DeepEqual in Hin. rewrite Hin.
    unfold trace_of, result_of, state_of. cbn [fst snd].
    repeat split. exact Hreads.
  - intros Hout.
    destruct (existsb _ (IpPermissions sg)) eqn:Hex.
    + apply existsb_DeepEqual in Hex. contradiction.
    + unfold trace_of, result_of, state_of. cbn [fst snd].
      split; [|split; [|split]].
      * rewrite mutations_app, Hreads. reflexivity.
      * eexists. split; [exact Hreads | reflexivity].
      * reflexivity.
      * reflexivity.
Qed.

End Convergence.

(* ===================================================================== *)
(** ** The operations on the fixture *)
(* ===================================================================== *)

Section OnFixture.
Import Fixture.

Lemma plan_run (ctx : Context) (c : Cloud) :
  match plan ctx c with
  | Fail =>
      state_of (SetupSecurityGroup ctx c) = c
      /\ mutations (trace_of (SetupSecurityGroup ctx c)) = []
      /\ isOk (result_of (SetupSecurityGroup ctx c)) = false
  | Converged =>
      state_of (SetupSecurityGroup ctx c) = c
      /\ mutations (trace_of (SetupSecurityGroup ctx c)) = []
      /\ result_of (SetupSecurityGroup ctx c) = Ok tt
  | Create input =>
      state_of (SetupSecurityGroup ctx c) = createGroup input c
      /\ mutations (trace_of (SetupSecurityGroup ctx c))
         = [EvCreateSecurityGroup input (Ok tt)]
      /\ result_of (SetupSecurityGroup ctx c) = Ok tt
  | Authorize input =>
      state_of (SetupSecurityGroup ctx c) = snd (authorize input c)
      /\ mutations (trace_of (SetupSecurityGroup ctx c))
         = [EvAuthorizeSecurityGroupIngress input (fst (authorize input c))]
      /\ result_of (SetupSecurityGroup ctx c)
         = afterCall (fst (authorize input c))
                     "error authorizing security group ingress"
  end.
Proof.
  unfold plan, SetupSecurityGroup, GetCidr, getVpc, getSecurityGroup, bind, call, ret.
  unfold state_of, trace_of, result_of, guarded.
  destruct (Done ctx) eqn:Hdone; [now run_fixture|].
  destruct (identity c) as [clusterID|e] eqn:Hid; [|now run_fixture].
  destruct (infraName c defaultSecurityGroupPostfix 40) as [secName|e] eqn:Hname;
    [|now run_fixture].
  destruct (ready c) eqn:Hready; [|now run_fixture].
  cbn [negb].
  destruct (getVpc_loop clusterID (vpcs c)) as [vpc|] eqn:Hvpc; [|now run_fixture].
  destruct (getSecurityGroup_loop secName (groups c)) as [sg|] eqn:Hsg;
    [|now run_fixture].
  destruct (existsb _ (IpPermissions sg)) eqn:Hperm; [now run_fixture|].
  run_fixture. destruct (authorize _ c) as [[u|e] c']; now cbn.
Qed.

Lemma find_map_same_name (input : AuthorizeSecurityGroupIngressInput)
  (secName : string) (gs : list SecurityGroup) :
  getSecurityGroup_loop secName (map (addPermissions input) gs)
  = option_map (addPermissions input) (getSecurityGroup_loop secName gs).
Proof.
  unfold getSecurityGroup_loop.
  induction gs as [|g gs IH]; simpl; [reflexivity|].
  replace (GroupName (addPermissions input g)) with (GroupName g)
    by (unfold addPermissions; now destruct (GroupId g =? _)).
  now destruct (GroupName g =? secName).
Qed.

Lemma getSecurityGroup_loop_In (secName : string) (gs : list SecurityGroup)
  (sg : SecurityGroup) :
  getSecurityGroup_loop secName gs = Some sg -> In sg gs /\ GroupName sg = secName.
Proof.
  intros Hf. apply find_some in Hf as [Hin Hname].
  split; [assumption | now apply String.eqb_eq].
Qed.

Lemma authorize_found (sg : SecurityGroup) (cidr : string) (c : Cloud) :
  In sg (groups c) ->
  authorize (authorizeInput (GroupId sg) cidr) c
  = (Ok tt,
     set_groups (map (addPermissions (authorizeInput (GroupId sg) cidr)) (groups c))
                (nextId c) c).
Proof.
  intros Hin. unfold authorize.
  replace (existsb _ (groups c)) with true; [reflexivity|].
  symmetry. apply existsb_exists. exists sg. split; [assumption|].
  apply String.eqb_refl.
Qed.

(** After the authorize call the fixture has converged. *)
Lemma plan_after_authorize (ctx : Context) (c : Cloud)
  (input : AuthorizeSecurityGroupIngressInput) :
  plan ctx c = Authorize input ->
  fst (authorize input c) = Ok tt
  /\ plan ctx (snd (authorize input c)) = Converged.
Proof.
  unfold plan.
  destruct (Done ctx); [discriminate|].
  destruct (identity c) as [clusterID|e] eqn:Hid; [|discriminate].
  destruct (infraName c defaultSecurityGroupPostfix 40) as [secName|e] eqn:Hname;
    [|discriminate].
  destruct (ready c) eqn:Hready; [|discriminate]. cbn [negb].
  destruct (getVpc_loop clusterID (vpcs c)) as [vpc|] eqn:Hvpc; [|discriminate].
  destruct (getSecurityGroup_loop secName (groups c)) as [sg|] eqn:Hsg;
    [|discriminate].
  destruct (existsb _ (IpPermissions sg)) eqn:Hperm; [discriminate|].
  intros [= <-]. fold (authorizeInput (GroupId sg) (CidrBlock vpc)).
  destruct (getSecurityGroup_loop_In _ _ _ Hsg) as [Hin _].
  rewrite authorize_found by exact Hin. split; [reflexivity|].
  cbn [snd].
  change (identity (set_groups _ _ c)) with (identity c).
  change (infraName (set_groups _ _ c)) with (infraName c).
  change (ready (set_groups _ _ c)) with (ready c).
  change (vpcs (set_groups _ _ c)) with (vpcs c).
  change (groups (set_groups ?gs _ c)) with gs.
  rewrite Hid, Hname, Hready, Hvpc, find_map_same_name, Hsg. cbn [negb option_map].
  replace (existsb _ (IpPermissions (addPermissions _ sg))) with true; [reflexivity|].
  symmetry. apply existsb_DeepEqual.
  unfold addPermissions, authorizeInput. cbn.
  rewrite String.eqb_refl. cbn. apply in_or_app. right. now left.
Qed.

(** After the create call the group is there without permissions, and the
    next invocation authorizes. *)
Lemma plan_after_create (ctx : Context) (c : Cloud) (input : CreateSecurityGroupInput) :
  plan ctx c = Create input ->
  exists input', plan ctx (createGroup input c) = Authorize input'.
Proof.
  unfold plan.
  destruct (Done ctx); [discriminate|].
  destruct (identity c) as [clusterID|e] eqn:Hid; [|discriminate].
  destruct (infraName c defaultSecurityGroupPostfix 40) as [secName|e] eqn:Hname;
    [|discriminate].
  destruct (ready c) eqn:Hready; [|discriminate]. cbn [negb].
  destruct (getVpc_loop clusterID (vpcs c)) as [vpc|] eqn:Hvpc; [|discriminate].
  destruct (getSecurityGroup_loop secName (groups c)) as [sg|] eqn:Hsg;
    [destruct (existsb _ (IpPermissions sg)); discriminate|].
  intros [= <-]. unfold createGroup.
  change (identity (set_groups _ _ c)) with (identity c).
  change (infraName (set_groups _ _ c)) with (infraName c).
  change (ready (set_groups _ _ c)) with (ready c).
  change (vpcs (set_groups _ _ c)) with (vpcs c).
  change (groups (set_groups ?gs _ c)) with gs.
  rewrite Hid, Hname, Hready, Hvpc. cbn [negb].
  unfold getSecurityGroup_loop in *. rewrite find_append, Hsg. cbn.
  rewrite String.eqb_refl. cbn. now eexists.
Qed.

Lemma filter_isCreate_mutations (t : list Event) :
  filter isCreate t = filter isCreate (mutations t).
Proof.
  unfold mutations. induction t as [|ev t IH]; simpl; [reflexivity|].
  destruct ev; simpl; congruence.
Qed.

Lemma sameResources_refl (c : Cloud) : sameResources c c.
Proof. now repeat split. Qed.

Lemma sameResources_trans (a b c : Cloud) :
  sameResources a b -> sameResources b c -> sameResources a c.
Proof.
  unfold sameResources. intros (Hv & Hs & Hg) (Hv' & Hs' & Hg').
  repeat split; congruence.
Qed.

Lemma guarded_same {A} (c : Cloud) (a : A) :
  sameResources c (snd (guarded c (Ok a, c))).
Proof. unfold guarded. destruct (ready c); apply sameResources_refl. Qed.

Lemma extends_refl (g : SecurityGroup) : extends g g.
Proof. repeat split. exists []. now rewrite app_nil_r. Qed.

Lemma extends_addPermissions (input : AuthorizeSecurityGroupIngressInput)
  (g : SecurityGroup) :
  extends g (addPermissions input g).
Proof.
  unfold addPermissions. destruct (GroupId g =? _); [|apply extends_refl].
  repeat split. now eexists.
Qed.

Lemma extends_all_refl (gs : list SecurityGroup) : Forall2 extends gs gs.
Proof. induction gs; constructor; auto using extends_refl. Qed.

Lemma extends_all_addPermissions (input : AuthorizeSecurityGroupIngressInput)
  (gs : list SecurityGroup) :
  Forall2 extends gs (map (addPermissions input) gs).
Proof. induction gs; constructor; auto using extends_addPermissions. Qed.

Lemma groups_kept (ctx : Context) (c : Cloud) :
  exists kept created,
    groups (state_of (SetupSecurityGroup ctx c)) = kept ++ created
    /\ Forall2 extends (groups c) kept.
Proof.
  assert (Hsame : exists kept created,
             groups c = kept ++ created /\ Forall2 extends (groups c) kept).
  { exists (groups c), []. rewrite app_nil_r. split; [reflexivity|].
    apply extends_all_refl. }
  pose proof (plan_run ctx c) as Hrun.
  destruct (plan ctx c) as [| |input|input]; destruct Hrun as (-> & _); auto.
  - unfold createGroup. cbn [groups set_groups].
    do 2 eexists. split; [reflexivity | apply extends_all_refl].
  - unfold authorize. destruct (existsb _ (groups c)); cbn [snd]; [|exact Hsame].
    exists (map (addPermissions input) (groups c)), [].
    cbn [groups set_groups]. rewrite app_nil_r. split; [reflexivity|].
    apply extends_all_addPermissions.
Qed.

Lemma SetupSecurityGroup_keeps_networks (ctx : Context) (c : Cloud) :
  vpcs (state_of (SetupSecurityGroup ctx c)) = vpcs c
  /\ subnets (state_of (SetupSecurityGroup ctx c)) = subnets c.
Proof.
  pose proof (plan_run ctx c) as Hrun.
  destruct (plan ctx c) as [| |input|input]; destruct Hrun as (-> & _); auto.
  unfold authorize. now destruct (existsb _ (groups c)).
Qed.

Lemma reads_keep_resources (ctx : Context) :
  preserves sameResources (GetCidr ctx)
  /\ preserves sameResources (GetVPCSubnets ctx)
  /\ preserves sameResources (GetAllSubnetIDS ctx)
  /\ preserves sameResources (GetPrivateSubnetIDS ctx).
Proof.
  split; [|split; [|split]];
    [ apply GetCidr_preserves | apply GetVPCSubnets_preserves
    | apply GetAllSubnetIDS_preserves | apply GetPrivateSubnetIDS_preserves ];
    first [ exact sameResources_refl | exact sameResources_trans
          | intros; cbn; first [apply guarded_same | now repeat split] ].
Qed.

End OnFixture.

(** [SetupSecurityGroup] makes at most one mutating call, whatever the
    provider. *)
Lemma SetupSecurityGroup_mutatesAtMostOnce
  {St : Type} `{EC2API St} `{Cluster St} `{Clock St} (ctx : Context) (s : St) :
  mutatesAtMostOnce (trace_of (SetupSecurityGroup ctx s)).
Proof.
  unfold mutatesAtMostOnce.
  remember (mutations (trace_of (SetupSecurityGroup ctx s))) as m eqn:Hm.
  unfold SetupSecurityGroup in Hm.
  rewrite bind_trace, mutations_app in Hm.
  rewrite (readonly_call (GetClusterID ctx) (EvGetClusterID ctx) (fun _ => eq_refl))
    in Hm.
  cbn [app] in Hm.
  destruct (result_of (call (GetClusterID ctx) _ s)) as [clusterID|e]; [|now left].
  rewrite bind_trace, mutations_app in Hm.
  rewrite (readonly_call (BuildInfraName ctx _ _) (EvBuildInfraName ctx _ _)
             (fun _ => eq_refl)) in Hm.
  cbn [app] in Hm.
  destruct (result_of (call (BuildInfraName ctx _ _) _ _)) as [secName|e]; [|now left].
  rewrite bind_trace, mutations_app, GetCidr_readonly in Hm. cbn [app] in Hm.
  destruct (result_of (GetCidr ctx _)) as [[vpcID cidr]|e]; [|now left].
  rewrite bind_trace, mutations_app, getSecurityGroup_readonly in Hm. cbn [app] in Hm.
  destruct (result_of (getSecurityGroup secName _)) as [[sg|]|e]; [| |now left].
  - destruct (existsb _ (IpPermissions sg)); [now left|].
    right. right. rewrite bind_trace, call_trace, mutations_app in Hm.
    rewrite Hm.
    destruct (result_of (call (AuthorizeSecurityGroupIngress _) _ _));
      do 2 eexists; reflexivity.
  - right. left. rewrite bind_trace, call_trace, mutations_app in Hm.
    rewrite Hm.
    destruct (result_of (call (CreateSecurityGroup _) _ _));
      do 2 eexists; reflexivity.
Qed.
(* ===================================================================== *)
(** ** Convergence and frame *)
(* ===================================================================== *)

Section Converging.
Import Fixture.

(** C1, as the code has it.  Against the fixture, after a first invocation
    that succeeded: if that invocation did not create the group, a second
    invocation makes no mutating call; if it did create the group, the second
    invocation makes the one authorize call that the first left undone; a
    third invocation makes no mutating call in either case. *)
Theorem SetupSecurityGroup_idempotent_once_group_exists (ctx : Context) (c : Cloud) :
  let first := SetupSecurityGroup ctx c in
  let second := SetupSecurityGroup ctx (state_of first) in
  let third := SetupSecurityGroup ctx (state_of second) in
  result_of first = Ok tt ->
  (filter isCreate (trace_of first) = [] -> mutations (trace_of second) = [])
  /\ (filter isCreate (trace_of first) <> [] ->
      exists input,
        mutations (trace_of second) = [EvAuthorizeSecurityGroupIngress input (Ok tt)])
  /\ mutations (trace_of third) = [].
Proof.
  intros first second third _. subst first second third.
  pose proof (plan_run ctx c) as Hfirst.
  destruct (plan ctx c) as [| |input|input] eqn:Hplan.
  - destruct Hfirst as (Hstate & Hmut & _).
    rewrite filter_isCreate_mutations, !Hstate, !Hmut.
    split; [reflexivity|]. split; [|reflexivity].
    intros Hne. exfalso. now apply Hne.
  - destruct Hfirst as (Hstate & Hmut & _).
    rewrite filter_isCreate_mutations, !Hstate, !Hmut.
    split; [reflexivity|]. split; [|reflexivity].
    intros Hne. exfalso. now apply Hne.
  - destruct Hfirst as (-> & Hmut & _).
    rewrite filter_isCreate_mutations, Hmut.
    destruct (plan_after_create ctx c input Hplan) as (input' & Hplan').
    pose proof (plan_run ctx (createGroup input c)) as Hsecond.
    rewrite Hplan' in Hsecond. destruct Hsecond as (-> & Hmut' & _).
    destruct (plan_after_authorize ctx _ input' Hplan') as (Hok & Hplan'').
    pose proof (plan_run ctx (snd (authorize input' (createGroup input c)))) as Hthird.
    rewrite Hplan'' in Hthird. destruct Hthird as (_ & Hmut'' & _).
    split; [discriminate|]. split; [|exact Hmut''].
    intros _. exists input'. now rewrite Hmut', Hok.
  - destruct Hfirst as (-> & Hmut & _).
    rewrite filter_isCreate_mutations, Hmut.
    destruct (plan_after_authorize ctx c input Hplan) as (Hok & Hplan').
    pose proof (plan_run ctx (snd (authorize input c))) as Hsecond.
    rewrite Hplan' in Hsecond. destruct Hsecond as (-> & Hmut' & _).
    split; [intros _; exact Hmut'|]. split; [|exact Hmut'].
    intros Hne. exfalso. now apply Hne.
Qed.

(** C9.  Whatever the provider, and though the interface offers calls that
    delete groups, revoke permissions and create, change or delete subnets and
    VPCs: the read operations make no mutating call, and [SetupSecurityGroup]
    makes at most one, which is a create-security-group call or an
    authorize-ingress call.  On the fixture, whose authorize call appends, the
    read operations leave every VPC, subnet and group as it was, and
    [SetupSecurityGroup] leaves the VPCs and subnets as they were and keeps
    every group, in its place, with the permissions it had and possibly more
    after them. *)
Theorem core_creates_and_authorizes_only :
  (forall (St : Type) (E : EC2API St) (C : Cluster St) (K : Clock St)
          (ctx : Context),
      readonly (GetCidr ctx)
      /\ readonly (GetVPCSubnets ctx)
      /\ readonly (GetAllSubnetIDS ctx)
      /\ readonly (GetPrivateSubnetIDS ctx)
      /\ forall s : St, mutatesAtMostOnce (trace_of (SetupSecurityGroup ctx s)))
  /\ (forall (ctx : Context) (c : Cloud),
         sameResources c (state_of (GetCidr ctx c))
         /\ sameResources c (state_of (GetVPCSubnets ctx c))
         /\ sameResources c (state_of (GetAllSubnetIDS ctx c))
         /\ sameResources c (state_of (GetPrivateSubnetIDS ctx c))
         /\ vpcs (state_of (SetupSecurityGroup ctx c)) = vpcs c
         /\ subnets (state_of (SetupSecurityGroup ctx c)) = subnets c
         /\ exists kept created,
              groups (state_of (SetupSecurityGroup ctx c)) = kept ++ created
              /\ Forall2 extends (groups c) kept).
Proof.
  split.
  - intros St E C K ctx.
    split; [apply GetCidr_readonly|].
    split; [apply GetVPCSubnets_readonly|].
    split; [apply GetAllSubnetIDS_readonly|].
    split; [apply GetPrivateSubnetIDS_readonly|].
    intros s. apply SetupSecurityGroup_mutatesAtMostOnce.
  - intros ctx c.
    destruct (reads_keep_resources ctx) as (Hcidr & Hsubs & Hall & Hprivate).
    split; [apply Hcidr|]. split; [apply Hsubs|].
    split; [apply Hall|]. split; [apply Hprivate|].
    destruct (SetupSecurityGroup_keeps_networks ctx c) as (Hv & Hs).
    split; [exact Hv|]. split; [exact Hs|].
    apply groups_kept.
Qed.

End Converging.

(* ===================================================================== *)
(** ** The theorems at work on the fixture *)
(* ===================================================================== *)

Section AtWork.
Import Fixture.

(** Of two VPCs with the cluster's tag value the later one is found. *)
Lemma getVpc_last_match_witness :
  DescribeVpcs twins = (Ok {| Vpcs := [barVpc; fooVpc; barTwin] |}, twins)
  /\ GetClusterID background twins = (Ok "bar", twins)
  /\ result_of (getVpc background twins) = Ok (Some barTwin).
Proof.
  split; [reflexivity|]. split; [reflexivity|].
  pose proof (getVpc_last_match background twins twins twins
                {| Vpcs := [barVpc; fooVpc; barTwin] |} "bar") as Hthm.
  apply (proj1 (Hthm eq_refl eq_refl) barTwin).
  exists [barVpc; fooVpc], []. repeat split.
Defined.

(** The subnets of the cluster's VPC, and not the one of the other VPC. *)
Lemma GetVPCSubnets_associated_witness :
  getSubnets account
  = (Ok [privateA; publicA; privateTwice; elsewhere], account,
     [EvDescribeSubnets (Ok {| Subnets := [privateA; publicA; privateTwice; elsewhere] |})])
  /\ result_of (getVpc background account) = Ok (Some barVpc)
  /\ result_of (GetVPCSubnets background account)
     = Ok [privateA; publicA; privateTwice].
Proof.
  split; [reflexivity|]. split; [reflexivity|].
  pose proof (GetVPCSubnets_associated background account account
                [privateA; publicA; privateTwice; elsewhere]
                [EvDescribeSubnets
                   (Ok {| Subnets := [privateA; publicA; privateTwice; elsewhere] |})])
    as Hthm.
  apply (proj1 (proj1 (Hthm eq_refl) barVpc eq_refl)).
  discriminate.
Defined.

(** Only the subnets with a tag value that has the word are listed. *)
Lemma GetPrivateSubnetIDS_private_witness :
  (exists sub, In sub [privateA; publicA; privateTwice] /\ isPrivate sub = true)
  /\ exists ids,
       result_of (GetPrivateSubnetIDS background account) = Ok ids
       /\ forall id,
            In id ids <->
            exists sub,
              In sub [privateA; publicA; privateTwice]
              /\ SubnetId sub = id /\ isPrivate sub = true.
Proof.
  assert (Hsome : exists sub,
             In sub [privateA; publicA; privateTwice] /\ isPrivate sub = true).
  { exists privateA. split; [now left | reflexivity]. }
  split; [exact Hsome|].
  pose proof (GetPrivateSubnetIDS_private background account account
                [privateA; publicA; privateTwice]
                (trace_of (GetVPCSubnets background account))) as Hthm.
  exact (proj1 (proj2 (Hthm eq_refl)) Hsome).
Defined.

(** A subnet with two matching tag values is listed twice. *)
Lemma GetPrivateSubnetIDS_repeats_witness :
  In privateTwice [privateA; publicA; privateTwice]
  /\ 1 < privateTags privateTwice
  /\ exists ids,
       result_of (GetPrivateSubnetIDS background account) = Ok ids
       /\ ids = ["subnet-a"; "subnet-c"; "subnet-c"]
       /\ count_occ string_dec ids "subnet-c" = 2
       /\ ~ NoDup ids.
Proof.
  assert (Hin : In privateTwice [privateA; publicA; privateTwice])
    by (right; right; now left).
  assert (Hk : 1 < privateTags privateTwice) by (apply Nat.ltb_lt; reflexivity).
  split; [exact Hin|]. split; [exact Hk|].
  pose proof (GetPrivateSubnetIDS_repeats background account account
                [privateA; publicA; privateTwice]
                (trace_of (GetVPCSubnets background account))) as Hthm.
  destruct (proj1 (Hthm eq_refl) privateTwice Hin Hk)
    as (ids & Hres & Hids & _ & _ & Honce & Hdup).
  exists ids. split; [exact Hres|]. split; [exact Hids|].
  split; [exact (Honce eq_refl) | exact Hdup].
Defined.

(** No group of the derived name: one create call, nothing after it, and
    the group is there without permissions. *)
Lemma SetupSecurityGroup_creates_witness :
  getVpc background account
  = (Ok (Some barVpc), account,
     [EvDescribeVpcs (Ok {| Vpcs := [fooVpc; barVpc] |});
      EvGetClusterID background (Ok "bar")])
  /\ DescribeSecurityGroups account = (Ok {| SecurityGroups := [] |}, account)
  /\ mutations (trace_of (SetupSecurityGroup background account))
     = [EvCreateSecurityGroup
          (createInput "bar" "bar-security-group" "vpc-2") (Ok tt)]
  /\ result_of (SetupSecurityGroup background account) = Ok tt
  /\ groups (state_of (SetupSecurityGroup background account)) = [barGroup []].
Proof.
  split; [reflexivity|]. split; [reflexivity|].
  pose proof (SetupSecurityGroup_creates background account account account account
                account
                [EvDescribeVpcs (Ok {| Vpcs := [fooVpc; barVpc] |});
                 EvGetClusterID background (Ok "bar")]
                "bar" "bar-security-group" barVpc
                {| SecurityGroups := [] |}) as Hthm.
  destruct (Hthm eq_refl eq_refl eq_refl eq_refl
                 (fun g (Hg : In g []) => match Hg with end))
    as (_ & Hmut & Hok & _ & Hstate).
  split; [exact Hmut|]. split; [exact (Hok eq_refl)|].
  exact (f_equal groups Hstate).
Defined.

(** The group has a permission for another range: one authorize call, for
    the wanted permission alone, and the group has both permissions. *)
Lemma SetupSecurityGroup_authorizes_witness :
  ~ In (Some (ipPermission "10.0.0.0/16"))
       (IpPermissions (barGroup [Some (ipPermission "10.0.1.0/16")]))
  /\ mutations (trace_of (SetupSecurityGroup background otherRange))
     = [EvAuthorizeSecurityGroupIngress
          (authorizeInput "sg-0" "10.0.0.0/16") (Ok tt)]
  /\ result_of (SetupSecurityGroup background otherRange) = Ok tt
  /\ groups (state_of (SetupSecurityGroup background otherRange))
     = [barGroup [Some (ipPermission "10.0.1.0/16");
                  Some (ipPermission "10.0.0.0/16")]].
Proof.
  assert (Hout : ~ In (Some (ipPermission "10.0.0.0/16"))
                      (IpPermissions (barGroup [Some (ipPermission "10.0.1.0/16")]))).
  { intros [Heq | []]. discriminate Heq. }
  split; [exact Hout|].
  pose proof (SetupSecurityGroup_authorizes background otherRange otherRange
                otherRange otherRange otherRange
                [EvDescribeVpcs (Ok {| Vpcs := [fooVpc; barVpc] |});
                 EvGetClusterID background (Ok "bar")]
                "bar" "bar-security-group" barVpc
                {| SecurityGroups := [barGroup [Some (ipPermission "10.0.1.0/16")]] |}
                [] [] (barGroup [Some (ipPermission "10.0.1.0/16")])) as Hthm.
  destruct (Hthm eq_refl eq_refl eq_refl eq_refl eq_refl eq_refl
                 (fun g (Hg : In g []) => match Hg with end))
    as (_ & _ & _ & Hauth).
  destruct (Hauth Hout) as (Hmut & _ & Hres & Hstate).
  split; [exact Hmut|]. split; [exact Hres|].
  exact (f_equal groups Hstate).
Defined.


(** The group was there: the first invocation authorizes, the second has
    nothing left to do. *)
Lemma SetupSecurityGroup_idempotent_once_group_exists_witness :
  result_of (SetupSecurityGroup background otherRange) = Ok tt
  /\ filter isCreate (trace_of (SetupSecurityGroup background otherRange)) = []
  /\ mutations
       (trace_of
          (SetupSecurityGroup background
             (state_of (SetupSecurityGroup background otherRange)))) = [].
Proof.
  split; [reflexivity|]. split; [reflexivity|].
  pose proof (SetupSecurityGroup_idempotent_once_group_exists background otherRange)
    as Hthm.
  exact (proj1 (Hthm eq_refl) eq_refl).
Defined.

(** C1 in the specification's wording does not hold: starting without the
    group, the first invocation creates it and succeeds, and the second
    invocation authorizes. *)
Lemma second_invocation_after_create_authorizes :
  ~ (forall (ctx : Context) (c : Cloud),
        result_of (SetupSecurityGroup ctx c) = Ok tt ->
        mutations
          (trace_of (SetupSecurityGroup ctx (state_of (SetupSecurityGroup ctx c))))
        = []).
Proof.
  intros Hidem. specialize (Hidem background account eq_refl).
  vm_compute in Hidem. discriminate Hidem.
Qed.

(** C10 in the specification's wording does not hold: when the listing has
    the identifier of a subnet with two matching tag values on a second entry
    too, the identifier is in the answer three times, not twice. *)
Lemma repeated_identifier_counts_more :
  ~ (forall (ctx : Context) (c : Cloud) (subs : list Subnet) (ids : list string)
            (sub : Subnet),
        result_of (GetVPCSubnets ctx c) = Ok subs ->
        result_of (GetPrivateSubnetIDS ctx c) = Ok ids ->
        In sub subs -> 1 < privateTags sub ->
        count_occ string_dec ids (SubnetId sub) = privateTags sub).
Proof.
  intros Hexact.
  specialize (Hexact background relisted [privateTwice; privateA; privateAgain]
                ["subnet-c"; "subnet-c"; "subnet-a"; "subnet-c"] privateTwice
                eq_refl eq_refl (or_introl eq_refl)).
  assert (Hk : 1 < privateTags privateTwice) by (apply Nat.ltb_lt; reflexivity).
  specialize (Hexact Hk). vm_compute in Hexact. discriminate Hexact.
Qed.


End AtWork.
(* ===================================================================== *)
(** ** The testable properties of the specification, run on the fixture *)
(* ===================================================================== *)

Section Examples.
Import Fixture.

Example pattern_compiles :
  regexp.Compile regexpStr
  = Ok (regexp.WordBoundary :: regexp.WordStar
        :: map regexp.Char (list_ascii_of_string "private")
        ++ [regexp.WordStar; regexp.WordBoundary]).
Proof. reflexivity. Qed.

Example pattern_on_values :
  map matchesPrivate
      ["cluster-private-a"; "cluster-public-a"; "private"; "myprivatestuff";
       "Private"; "priv ate"; "a_private_1"; ""]
  = [true; false; true; true; false; false; true; false].
Proof. reflexivity. Qed.

Example tag_matching_second_domain :
  result_of (getVpc background account) = Ok (Some barVpc).
Proof. reflexivity. Qed.

Example tag_matching_none :
  result_of (getVpc background stranger) = Err (New "error, no vpc found").
Proof. reflexivity. Qed.

Example private_subnet_filter :
  result_of (GetPrivateSubnetIDS background account)
  = Ok ["subnet-a"; "subnet-c"; "subnet-c"].
Proof. reflexivity. Qed.

Example all_subnets :
  result_of (GetAllSubnetIDS background account)
  = Ok ["subnet-a"; "subnet-b"; "subnet-c"].
Proof. reflexivity. Qed.

Example empty_result_is_not_found :
  result_of (GetVPCSubnets background twins)
  = Err (New "error, unable to find subnets associated with cluster vpc").
Proof. reflexivity. Qed.

Example no_vpc_is_not_found :
  result_of (GetVPCSubnets background stranger)
  = Err (Wrap (New "error, no vpc found") "error getting vpcs").
Proof. reflexivity. Qed.

Example identical_permission_no_call :
  result_of (SetupSecurityGroup background converged) = Ok tt
  /\ mutations (trace_of (SetupSecurityGroup background converged)) = [].
Proof. split; reflexivity. Qed.

Example other_range_is_kept :
  groups (state_of (SetupSecurityGroup background otherRange))
  = [barGroup [Some (ipPermission "10.0.1.0/16"); Some (ipPermission "10.0.0.0/16")]].
Proof. reflexivity. Qed.

Example empty_list_is_not_nil :
  DeepEqual (Some emptyNotNil) (Some (ipPermission "10.0.0.0/16")) = false
  /\ mutations
       (trace_of
          (SetupSecurityGroup background
             (withGroups [barGroup [Some emptyNotNil]] account)))
     = [EvAuthorizeSecurityGroupIngress (authorizeInput "sg-0" "10.0.0.0/16") (Ok tt)].
Proof. split; reflexivity. Qed.

Example three_invocations :
  let first := SetupSecurityGroup background account in
  let second := SetupSecurityGroup background (state_of first) in
  let third := SetupSecurityGroup background (state_of second) in
  map isCreate (mutations (trace_of first)) = [true]
  /\ map isCreate (mutations (trace_of second)) = [false]
  /\ mutations (trace_of third) = []
  /\ groups (state_of third) = [barGroup [Some (ipPermission "10.0.0.0/16")]].
Proof. repeat split; reflexivity. Qed.

Example credentials_arrive_after_twelve_seconds :
  let run := GetVPCSubnets background (notYet (Second * 12)%Z account) in
  result_of run = Ok [privateA; publicA; privateTwice]
  /\ slept (trace_of run) = (Second * 15)%Z
  /\ now (state_of run) = (Second * 15)%Z.
Proof. repeat split; vm_compute; reflexivity. Qed.

Example credentials_never_arrive :
  let run := getSubnets (notYet (Minute * 10)%Z account) in
  result_of run = Err ErrWaitTimeout
  /\ slept (trace_of run) = (Minute * 5)%Z
  /\ List.length (filter (fun ev => negb (isMutating ev)) (trace_of run))
     = maxAttempts + 60.
Proof. repeat split; vm_compute; reflexivity. Qed.

Example budget_runs_out_on_a_listing :
  let run := getSubnets (notYet (Minute * 10)%Z account) in
  List.length (filter isPoll (trace_of run)) = 62 + 60
  /\ firstn 3 (trace_of run)
     = [EvDescribeSubnets (Err AuthFailure); EvSleep (Second * 5)%Z;
        EvDescribeSubnets (Err AuthFailure)]
  /\ skipn 119 (trace_of run)
     = [EvSleep (Second * 5)%Z; EvDescribeSubnets (Err AuthFailure);
        EvDescribeSubnets (Err AuthFailure)].
Proof. repeat split; vm_compute; reflexivity. Qed.

Example expired_context_fails_before_any_provider_call :
  SetupSecurityGroup expired account
  = (Err (Wrap DeadlineExceeded "error getting cluster id"), account,
     [EvGetClusterID expired (Err DeadlineExceeded)]).
Proof. reflexivity. Qed.

End Examples.
(* ===================================================================== *)
(** ** More of the file: the other read operations *)
(* ===================================================================== *)

Lemma bind_result {St A B} (m : M St A) (k : A -> M St B) (s : St) :
  result_of (bind m k s) = result_of (k (result_of (m s)) (state_of (m s))).
Proof. now rewrite bind_run. Qed.

Lemma bind_state {St A B} (m : M St A) (k : A -> M St B) (s : St) :
  state_of (bind m k s) = state_of (k (result_of (m s)) (state_of (m s))).
Proof. now rewrite bind_run. Qed.

Lemma outcome_eta {St A} (o : A * St * list Event) :
  o = (result_of o, state_of o, trace_of o).
Proof. now destruct o as [[a s] t]. Qed.

Section MoreReads.
Context {St : Type} `{EC2API St} `{Cluster St} `{Clock St}.

Lemma GetVPCSubnets_nonempty (ctx : Context) (s s1 : St)
  (subs : list Subnet) (t1 : list Event) :
  GetVPCSubnets ctx s = (Ok subs, s1, t1) -> subs <> [].
Proof.
  intros Hs ->. apply (GetVPCSubnets_never_empty ctx s). now rewrite Hs.
Qed.

(** [GetAllSubnetIDS], once [GetVPCSubnets] has answered [subs]. *)
Lemma GetAllSubnetIDS_run (ctx : Context) (s s1 : St)
  (subs : list Subnet) (t1 : list Event) :
  GetVPCSubnets ctx s = (Ok subs, s1, t1) ->
  GetAllSubnetIDS ctx s = (Ok (map SubnetId subs), s1, t1).
Proof.
  intros Hs. pose proof (GetVPCSubnets_nonempty ctx s s1 subs t1 Hs) as Hne.
  unfold GetAllSubnetIDS, bind. rewrite Hs, subIDs_loop_map.
  destruct subs as [|sub subs]; [contradiction|].
  simpl. now rewrite app_nil_r.
Qed.

(** X1.  [GetAllSubnetIDS] answers with the identifier of every associated
    subnet, one for each and in the order [GetVPCSubnets] gave them; it makes
    no call of its own and leaves the collaborators where [GetVPCSubnets]
    left them. *)
Theorem GetAllSubnetIDS_one_per_subnet (ctx : Context) (s s1 : St)
  (subs : list Subnet) (t1 : list Event) :
  GetVPCSubnets ctx s = (Ok subs, s1, t1) ->
  GetAllSubnetIDS ctx s = (Ok (map SubnetId subs), s1, t1)
  /\ (forall i sub, nth_error subs i = Some sub ->
                    exists ids, result_of (GetAllSubnetIDS ctx s) = Ok ids
                                /\ nth_error ids i = Some (SubnetId sub))
  /\ (forall ids, result_of (GetAllSubnetIDS ctx s) = Ok ids ->
                  List.length ids = List.length subs /\ ids <> []).
Proof.
  intros Hs. pose proof (GetAllSubnetIDS_run ctx s s1 subs t1 Hs) as Hrun.
  rewrite Hrun. unfold result_of. simpl. split; [reflexivity|]. split.
  - intros i sub Hi. eexists. split; [reflexivity|].
    now apply map_nth_error.
  - intros ids [= <-]. rewrite length_map. split; [reflexivity|].
    pose proof (GetVPCSubnets_nonempty ctx s s1 subs t1 Hs) as Hne.
    destruct subs; [contradiction | discriminate].
Qed.

(** X2.  Four error branches of the file are dead.  [getVpc] never answers
    with a nil VPC and no error, so neither [GetCidr] nor [GetVPCSubnets] ever
    fails with ["error, unable to find a vpc"]; [GetVPCSubnets] never answers
    with an empty list, so [GetAllSubnetIDS] never fails with ["failed to get
    list of subnet ids"]; and the pattern compiles, so [GetPrivateSubnetIDS]
    never fails with ["failed to compile regexp ..."]. *)
Theorem dead_error_branches (ctx : Context) (s : St) :
  result_of (GetCidr ctx s) <> Err (New "error, unable to find a vpc")
  /\ result_of (GetVPCSubnets ctx s) <> Err (New "error, unable to find a vpc")
  /\ result_of (GetAllSubnetIDS ctx s) <> Err (New "failed to get list of subnet ids")
  /\ (forall err,
         result_of (GetPrivateSubnetIDS ctx s)
         <> Err (Wrap err ("failed to compile regexp " ++ regexpStr))).
Proof.
  split; [|split; [|split]].
  - unfold GetCidr. rewrite bind_result.
    pose proof (getVpc_not_nil ctx s) as Hnil.
    destruct (result_of (getVpc ctx s)) as [[vpc|]|e]; [discriminate | | discriminate].
    now contradiction Hnil.
  - unfold GetVPCSubnets. rewrite bind_result.
    destruct (result_of (getSubnets s)) as [subs|e]; [|discriminate].
    rewrite bind_result.
    pose proof (getVpc_not_nil ctx (state_of (getSubnets s))) as Hnil.
    destruct (result_of (getVpc ctx _)) as [[vpc|]|e]; [| now contradiction Hnil | discriminate].
    destruct (GetVPCSubnets_loop vpc subs); discriminate.
  - unfold GetAllSubnetIDS. rewrite bind_result.
    pose proof (GetVPCSubnets_never_empty ctx s) as Hne.
    destruct (result_of (GetVPCSubnets ctx s)) as [subs|e]; [|discriminate].
    rewrite subIDs_loop_map.
    destruct subs; [now contradiction Hne | discriminate].
  - intros err. unfold GetPrivateSubnetIDS. rewrite bind_result.
    destruct (result_of (GetVPCSubnets ctx s)) as [subs|e]; [|discriminate].
    destruct Compile_regexpStr as [anReg ->].
    destruct (subIDs_loop _); discriminate.
Qed.

(** [GetCidr] is [getVpc] with the VPC cut down to two of its fields. *)
Lemma GetCidr_run (ctx : Context) (s : St) :
  GetCidr ctx s
  = (match result_of (getVpc ctx s) with
     | Err err => Err (Wrap err "error getting vpcs")
     | Ok None => Err (New "error, unable to find a vpc")
     | Ok (Some foundVPC) => Ok (Vpc_VpcId foundVPC, CidrBlock foundVPC)
     end,
     state_of (getVpc ctx s), trace_of (getVpc ctx s)).
Proof.
  unfold GetCidr, bind, result_of, state_of, trace_of.
  destruct (getVpc ctx s) as [[[[vpc|]|e] s1] t1]; simpl; now rewrite app_nil_r.
Qed.

(** X3.  [GetCidr] answers with the identifier and the address range of one
    and the same VPC, the last listed VPC with the cluster's tag value; when
    no listed VPC has it, [GetCidr] fails with the not-found error of
    [getVpc], wrapped.  It makes the two calls of [getVpc] and no other. *)
Theorem GetCidr_of_last_match (ctx : Context) (s s1 s2 : St)
  (out : DescribeVpcsOutput) (clusterID : string) :
  DescribeVpcs s = (Ok out, s1) ->
  GetClusterID ctx s1 = (Ok clusterID, s2) ->
  (forall vpcID cidr,
      result_of (GetCidr ctx s) = Ok (vpcID, cidr) <->
      exists pre vpc post,
        Vpcs out = pre ++ vpc :: post
        /\ vpcMatches clusterID vpc = true
        /\ forallb (fun later => negb (vpcMatches clusterID later)) post = true
        /\ vpcID = Vpc_VpcId vpc /\ cidr = CidrBlock vpc)
  /\ ((forall vpc, In vpc (Vpcs out) -> vpcMatches clusterID vpc = false) <->
      result_of (GetCidr ctx s)
      = Err (Wrap (New "error, no vpc found") "error getting vpcs"))
  /\ state_of (GetCidr ctx s) = s2
  /\ trace_of (GetCidr ctx s)
     = [EvDescribeVpcs (Ok out); EvGetClusterID ctx (Ok clusterID)].
Proof.
  intros Hd Hc. rewrite GetCidr_run, (getVpc_run ctx s s1 s2 out clusterID Hd Hc).
  unfold result_of, state_of, trace_of. simpl. rewrite getVpc_loop_find.
  split; [|split; [|split; reflexivity]].
  - intros vpcID cidr.
    destruct (find (vpcMatches clusterID) (rev (Vpcs out))) as [v|] eqn:Hf.
    + split.
      * intros [= <- <-]. apply find_rev_last in Hf as (pre & post & Hl & Hm & Hp).
        now exists pre, v, post.
      * intros (pre & vpc & post & Hl & Hm & Hp & -> & ->).
        assert (Hf' : find (vpcMatches clusterID) (rev (Vpcs out)) = Some vpc)
          by (apply find_rev_last; now exists pre, post).
        congruence.
    + split; [discriminate|].
      intros (pre & vpc & post & Hl & Hm & Hp & _).
      assert (Hf' : find (vpcMatches clusterID) (rev (Vpcs out)) = Some vpc)
        by (apply find_rev_last; now exists pre, post).
      congruence.
  - destruct (find (vpcMatches clusterID) (rev (Vpcs out))) as [v|] eqn:Hf.
    + split; [|discriminate]. intros Hnone.
      apply find_some in Hf as [Hin Hv]. apply in_rev in Hin.
      rewrite (Hnone v Hin) in Hv. discriminate.
    + split; [reflexivity|]. intros _ vpc Hin.
      apply (find_none _ _ Hf). now apply in_rev in Hin.
Qed.

(** X4.  [getSecurityGroup] answers with the first listed group of exactly
    the given name, also when several groups have it, and with no group and
    no error exactly when no listed group has the name.  (Where [getVpc]
    keeps the last match, the [break] here keeps the first.) *)
Theorem getSecurityGroup_first_match (secName : string) (s s1 : St)
  (out : DescribeSecurityGroupsOutput) :
  DescribeSecurityGroups s = (Ok out, s1) ->
  (forall sg,
      result_of (getSecurityGroup secName s) = Ok (Some sg) <->
      exists before after,
        SecurityGroups out = before ++ sg :: after
        /\ GroupName sg = secName
        /\ forall g, In g before -> GroupName g <> secName)
  /\ (result_of (getSecurityGroup secName s) = Ok None <->
      forall g, In g (SecurityGroups out) -> GroupName g <> secName)
  /\ state_of (getSecurityGroup secName s) = s1
  /\ trace_of (getSecurityGroup secName s) = [EvDescribeSecurityGroups (Ok out)].
Proof.
  intros Hd. unfold getSecurityGroup, bind, call. rewrite Hd.
  unfold result_of, state_of, trace_of. simpl.
  split; [|split; [|split; reflexivity]].
  - intros sg. unfold getSecurityGroup_loop. split.
    + intros [= Hf]. apply find_split in Hf as (before & after & Hl & Hn & Hb).
      exists before, after. split; [exact Hl|]. split; [now apply String.eqb_eq|].
      intros g Hg. rewrite forallb_forall in Hb.
      specialize (Hb g Hg). apply negb_true_iff in Hb. now apply String.eqb_neq.
    + intros (before & after & Hl & Hn & Hb). f_equal. rewrite Hl.
      now apply getSecurityGroup_loop_first.
  - split.
    + intros [= Hf] g Hg. apply String.eqb_neq.
      exact (find_none _ _ Hf g Hg).
    + intros Hnone. f_equal. now apply getSecurityGroup_loop_none.
Qed.

(** X5.  The pattern of [GetPrivateSubnetIDS] is a substring test in
    disguise: a tag value matches exactly when it has the text ["private"]
    somewhere in it.  The word boundaries and the [\w] runs around the word
    exclude nothing. *)
Theorem pattern_is_substring_test (value : string) :
  matchesPrivate value = true <-> containsPrivate value.
Proof.
  split.
  - intros Hm. apply privateWord_contains. now apply matchesPrivate_word.
  - intros Hc. apply matchesPrivate_word. now apply privateWord_contains.
Qed.

(** X6.  On the same collaborators, every identifier [GetPrivateSubnetIDS]
    answers with is one [GetAllSubnetIDS] answers with, and whenever
    [GetVPCSubnets] succeeds [GetAllSubnetIDS] succeeds, while
    [GetPrivateSubnetIDS] fails if no associated subnet is private. *)
Theorem private_ids_among_all_ids (ctx : Context) (s s1 : St)
  (subs : list Subnet) (t1 : list Event) :
  GetVPCSubnets ctx s = (Ok subs, s1, t1) ->
  exists allIDs,
    result_of (GetAllSubnetIDS ctx s) = Ok allIDs
    /\ (forall privateIDs,
           result_of (GetPrivateSubnetIDS ctx s) = Ok privateIDs ->
           incl privateIDs allIDs)
    /\ (isOk (result_of (GetPrivateSubnetIDS ctx s)) = existsb isPrivate subs).
Proof.
  intros Hs. exists (map SubnetId subs).
  rewrite (GetAllSubnetIDS_run ctx s s1 subs t1 Hs).
  rewrite (GetPrivateSubnetIDS_run ctx s s1 subs t1 Hs).
  unfold result_of. simpl. split; [reflexivity|].
  set (ids := flat_map _ subs).
  assert (Hin : forall id, In id ids ->
                           exists sub, In sub subs /\ SubnetId sub = id
                                       /\ isPrivate sub = true)
    by (intros id; apply private_ids_In).
  split.
  - intros privateIDs Hres id Hid.
    assert (privateIDs = ids) by (destruct ids; congruence). subst privateIDs.
    destruct (Hin id Hid) as (sub & Hsub & <- & _). now apply in_map.
  - destruct (existsb isPrivate subs) eqn:Hex.
    + apply existsb_exists in Hex as (sub & Hsub & Hp).
      assert (Hid : In (SubnetId sub) ids) by (apply private_ids_In; now exists sub).
      destruct ids; [contradiction | reflexivity].
    + destruct ids as [|id ids'] eqn:Hids; [reflexivity|].
      destruct (Hin id (or_introl eq_refl)) as (sub & Hsub & _ & Hp).
      assert (Hex' : existsb isPrivate subs = true)
        by (apply existsb_exists; now exists sub).
      congruence.
Qed.

End MoreReads.

(* ===================================================================== *)
(** ** More of the file: how [SetupSecurityGroup] fails *)
(* ===================================================================== *)

Section FailFast.
Context {St : Type}.

Lemma failsFast_ret {A} (r : Result A) (s : St) : failsFast (ret r s).
Proof. intros pre ev post e0 Htr. now destruct pre. Qed.

Lemma failsFast_call {A} (f : St -> Result A * St) (ev : Result A -> Event) (s : St) :
  (forall r, failure (ev r) = errorOf r) -> failsFast (call f ev s).
Proof.
  intros Hev pre ev' post e0 Htr Hfail. rewrite call_run in *.
  unfold trace_of, result_of in *. simpl in *.
  destruct pre as [|x pre]; [|now destruct pre].
  injection Htr as <- <-. split; [reflexivity|].
  rewrite Hev in Hfail. destruct (fst (f s)) as [a|e]; [discriminate|].
  injection Hfail as ->. now exists e0.
Qed.

Lemma failsFast_no_failure_when_ok {A} (o : Result A * St * list Event) (a : A)
  (ev : Event) (e0 : error) :
  failsFast o -> result_of o = Ok a -> In ev (trace_of o) -> failure ev = Some e0 ->
  False.
Proof.
  intros Hff Hok Hin Hfail. apply in_split in Hin as (pre & post & Htr).
  destruct (Hff pre ev post e0 Htr Hfail) as (_ & e & He & _). congruence.
Qed.

(** The idiom [if err != nil { return wrap(err) }]: a step that stops at a
    failure, followed by steps that do. *)
Lemma failsFast_try {A B} (m : M St (Result A)) (msg : string)
  (k : A -> M St (Result B)) (s : St) :
  failsFast (m s) ->
  (forall a s', failsFast (k a s')) ->
  failsFast
    (bind m (fun r => match r with
                      | Err err => ret (Err (Wrap err msg))
                      | Ok a => k a
                      end) s).
Proof.
  intros Hm Hk pre ev post e0 Htr Hfail.
  rewrite bind_trace in Htr. rewrite bind_result.
  destruct (result_of (m s)) as [a|e1] eqn:Hr.
  - apply app_eq_app in Htr as (l & [(Ht1 & Ht2) | (Hpre & Ht2)]).
    + destruct l as [|x l].
      * simpl in Ht2.
        apply (Hk a (state_of (m s)) [] ev post e0); [now symmetry | assumption].
      * injection Ht2 as <- ->. exfalso.
        apply (failsFast_no_failure_when_ok (m s) a ev e0 Hm Hr); [|assumption].
        rewrite Ht1. apply in_or_app. right. now left.
    + apply (Hk a (state_of (m s)) l ev post e0); assumption.
  - unfold ret, trace_of at 2 in Htr. simpl in Htr. rewrite app_nil_r in Htr.
    destruct (Hm pre ev post e0 Htr Hfail) as (Hpost & e & He & Hc).
    split; [exact Hpost|]. exists (Wrap e1 msg). split; [reflexivity|].
    simpl. congruence.
Qed.

End FailFast.

Section SetupFails.
Context {St : Type} `{EC2API St} `{Cluster St} `{Clock St}.

Lemma getVpc_failsFast (ctx : Context) (s : St) : failsFast (getVpc ctx s).
Proof.
  unfold getVpc.
  apply (failsFast_try (call DescribeVpcs EvDescribeVpcs) "error getting subnets").
  - now apply failsFast_call.
  - intros vpcs s1.
    apply (failsFast_try (call (GetClusterID ctx) (EvGetClusterID ctx))
                         "error getting clusterID").
    + now apply failsFast_call.
    + intros clusterID s2.
      destruct (getVpc_loop clusterID (Vpcs vpcs)); apply failsFast_ret.
Qed.

Lemma GetCidr_failsFast (ctx : Context) (s : St) : failsFast (GetCidr ctx s).
Proof.
  unfold GetCidr.
  apply (failsFast_try (getVpc ctx) "error getting vpcs"
           (fun found => match found with
                         | None => ret (Err (New "error, unable to find a vpc"))
                         | Some foundVPC =>
                             ret (Ok (Vpc_VpcId foundVPC, CidrBlock foundVPC))
                         end)).
  - apply getVpc_failsFast.
  - intros [vpc|] s1; apply failsFast_ret.
Qed.

Lemma getSecurityGroup_failsFast (secName : string) (s : St) :
  failsFast (getSecurityGroup secName s).
Proof.
  unfold getSecurityGroup.
  apply (failsFast_try (call DescribeSecurityGroups EvDescribeSecurityGroups)
           "failed to return information about security groups"
           (fun secGroups =>
              ret (Ok (getSecurityGroup_loop secName (SecurityGroups secGroups))))).
  - now apply failsFast_call.
  - intros out s1. apply failsFast_ret.
Qed.

(** X7.  [SetupSecurityGroup] swallows no failure and does not go on after
    one: a collaborator call that fails is the last call it makes, and the
    error it then returns has the cause of that call's error, however many
    descriptions are wrapped around it.  The same holds of [GetCidr]. *)
Theorem SetupSecurityGroup_fails_fast (ctx : Context) (s : St) :
  failsFast (SetupSecurityGroup ctx s) /\ failsFast (GetCidr ctx s).
Proof.
  split; [|apply GetCidr_failsFast].
  unfold SetupSecurityGroup.
  apply (failsFast_try (call (GetClusterID ctx) (EvGetClusterID ctx))
                       "error getting cluster id").
  { now apply failsFast_call. }
  intros clusterID s1.
  apply (failsFast_try
           (call (BuildInfraName ctx defaultSecurityGroupPostfix DefaultAwsIdentifierLength)
                 (EvBuildInfraName ctx defaultSecurityGroupPostfix DefaultAwsIdentifierLength))
           "error building subnet group name").
  { now apply failsFast_call. }
  intros secName s2.
  apply (failsFast_try (GetCidr ctx) "error finding cidr block"
           (fun vpc => let '(vpcID, cidr) := vpc in _)).
  { apply GetCidr_failsFast. }
  intros [vpcID cidr] s3.
  apply (failsFast_try (getSecurityGroup secName) "error get security group"
           (fun found => match found with None => _ | Some foundSecGroup => _ end)).
  { apply getSecurityGroup_failsFast. }
  intros [sg|] s4.
  - destruct (existsb _ (IpPermissions sg)); [apply failsFast_ret|].
    apply (failsFast_try (call (AuthorizeSecurityGroupIngress _)
                               (EvAuthorizeSecurityGroupIngress _))
                         "error authorizing security group ingress"
                         (fun _ => ret (Ok tt))).
    + now apply failsFast_call.
    + intros u s5. apply failsFast_ret.
  - apply (failsFast_try (call (CreateSecurityGroup _) (EvCreateSecurityGroup _))
                         "error creating security group"
                         (fun _ => ret (Ok tt))).
    + now apply failsFast_call.
    + intros u s5. apply failsFast_ret.
Qed.

End SetupFails.

Section SetupOutcome.
Context {St : Type} `{EC2API St} `{Cluster St} `{Clock St}.

(** What [SetupSecurityGroup] changed and what it answers go together. *)
Lemma SetupSecurityGroup_shape (ctx : Context) (s : St) :
  mutations (trace_of (SetupSecurityGroup ctx s)) = []
  \/ (exists input r,
         mutations (trace_of (SetupSecurityGroup ctx s)) = [EvCreateSecurityGroup input r]
         /\ result_of (SetupSecurityGroup ctx s)
            = afterCall r "error creating security group")
  \/ (exists input r,
         mutations (trace_of (SetupSecurityGroup ctx s))
         = [EvAuthorizeSecurityGroupIngress input r]
         /\ result_of (SetupSecurityGroup ctx s)
            = afterCall r "error authorizing security group ingress").
Proof.
  remember (mutations (trace_of (SetupSecurityGroup ctx s))) as m eqn:Hm.
  remember (result_of (SetupSecurityGroup ctx s)) as res eqn:Hres.
  unfold SetupSecurityGroup in Hm, Hres.
  rewrite bind_trace, mutations_app in Hm. rewrite bind_result in Hres.
  rewrite (readonly_call (GetClusterID ctx) (EvGetClusterID ctx) (fun _ => eq_refl))
    in Hm.
  cbn [app] in Hm.
  destruct (result_of (call (GetClusterID ctx) _ s)) as [clusterID|e]; [|now left].
  rewrite bind_trace, mutations_app in Hm. rewrite bind_result in Hres.
  rewrite (readonly_call (BuildInfraName ctx _ _) (EvBuildInfraName ctx _ _)
             (fun _ => eq_refl)) in Hm.
  cbn [app] in Hm.
  destruct (result_of (call (BuildInfraName ctx _ _) _ _)) as [secName|e]; [|now left].
  rewrite bind_trace, mutations_app, GetCidr_readonly in Hm. cbn [app] in Hm.
  rewrite bind_result in Hres.
  destruct (result_of (GetCidr ctx _)) as [[vpcID cidr]|e]; [|now left].
  rewrite bind_trace, mutations_app, getSecurityGroup_readonly in Hm. cbn [app] in Hm.
  rewrite bind_result in Hres.
  destruct (result_of (getSecurityGroup secName _)) as [[sg|]|e]; [| |now left].
  - destruct (existsb _ (IpPermissions sg)); [now left|].
    right. right. rewrite bind_trace, call_trace, mutations_app in Hm.
    rewrite bind_result in Hres. rewrite Hm, Hres.
    destruct (result_of (call (AuthorizeSecurityGroupIngress _) _ _)) as [[]|e];
      do 2 eexists; split; reflexivity.
  - right. left. rewrite bind_trace, call_trace, mutations_app in Hm.
    rewrite bind_result in Hres. rewrite Hm, Hres.
    destruct (result_of (call (CreateSecurityGroup _) _ _)) as [[]|e];
      do 2 eexists; split; reflexivity.
Qed.

(** X8.  [SetupSecurityGroup] succeeds exactly when the mutating call it
    made succeeded: a create or authorize call that went through is never
    followed by a failure, and when the call failed the result is that call's
    error with one description around it. *)
Theorem SetupSecurityGroup_result_follows_call (ctx : Context) (s : St) (ev : Event) :
  In ev (mutations (trace_of (SetupSecurityGroup ctx s))) ->
  (failure ev = None <-> result_of (SetupSecurityGroup ctx s) = Ok tt)
  /\ (forall e0, failure ev = Some e0 ->
                 exists msg, result_of (SetupSecurityGroup ctx s) = Err (Wrap e0 msg)).
Proof.
  intros Hin.
  destruct (SetupSecurityGroup_shape ctx s)
    as [Hm | [(input & r & Hm & Hr) | (input & r & Hm & Hr)]];
    rewrite Hm in Hin; [contradiction | |];
    destruct Hin as [<- | []]; rewrite Hr; destruct r as [u|e]; simpl;
    (split; [split; [reflexivity || discriminate | reflexivity || discriminate]|]);
    intros e0 [= <-] || intros e0 [=]; eauto.
Qed.

Lemma getVpc_calls (ctx : Context) (s : St) :
  filter isPoll (trace_of (getVpc ctx s)) = []
  /\ List.length (trace_of (getVpc ctx s)) <= 2.
Proof.
  unfold getVpc. rewrite bind_trace, call_trace.
  destruct (result_of (call DescribeVpcs _ s)) as [out|e];
    [|split; [reflexivity | simpl; lia]].
  rewrite bind_trace, call_trace.
  destruct (result_of (call (GetClusterID ctx) _ _)) as [clusterID|e];
    [|split; [reflexivity | simpl; lia]].
  destruct (getVpc_loop clusterID (Vpcs out)); split; (reflexivity || (simpl; lia)).
Qed.

Lemma GetCidr_calls (ctx : Context) (s : St) :
  filter isPoll (trace_of (GetCidr ctx s)) = []
  /\ List.length (trace_of (GetCidr ctx s)) <= 2.
Proof.
  rewrite GetCidr_run. unfold trace_of at 1 2. simpl. apply getVpc_calls.
Qed.

Lemma getSecurityGroup_calls (secName : string) (s : St) :
  filter isPoll (trace_of (getSecurityGroup secName s)) = []
  /\ List.length (trace_of (getSecurityGroup secName s)) <= 1.
Proof.
  unfold getSecurityGroup. rewrite bind_trace, call_trace.
  destruct (result_of (call DescribeSecurityGroups _ s)); split;
    (reflexivity || (simpl; lia)).
Qed.

(** X9.  [SetupSecurityGroup] never polls: it lists no subnets and never
    waits, whatever the provider does, and it makes at most six collaborator
    calls in all (two identity lookups, one name, two listings, one
    mutation). *)
Theorem SetupSecurityGroup_never_waits (ctx : Context) (s : St) :
  filter isPoll (trace_of (SetupSecurityGroup ctx s)) = []
  /\ slept (trace_of (SetupSecurityGroup ctx s)) = 0%Z
  /\ List.length (trace_of (SetupSecurityGroup ctx s)) <= 6.
Proof.
  assert (Hslept : forall t, filter isPoll t = [] -> slept t = 0%Z).
  { induction t as [|ev t IH]; [reflexivity|].
    destruct ev; simpl; try discriminate; exact IH. }
  enough (Hgoal : filter isPoll (trace_of (SetupSecurityGroup ctx s)) = []
                  /\ List.length (trace_of (SetupSecurityGroup ctx s)) <= 6)
    by (destruct Hgoal; auto).
  remember (trace_of (SetupSecurityGroup ctx s)) as t eqn:Ht.
  unfold SetupSecurityGroup in Ht.
  rewrite bind_trace, call_trace in Ht.
  destruct (result_of (call (GetClusterID ctx) _ s)) as [clusterID|e];
    [|subst t; split; [reflexivity | simpl; lia]].
  rewrite bind_trace, call_trace in Ht.
  destruct (result_of (call (BuildInfraName ctx _ _) _ _)) as [secName|e];
    [|subst t; split; [reflexivity | simpl; lia]].
  rewrite bind_trace in Ht.
  match type of Ht with
  | context [trace_of (GetCidr ctx ?s')] =>
      destruct (GetCidr_calls ctx s') as (Hp3 & Hl3);
      set (t3 := trace_of (GetCidr ctx s')) in *
  end.
  destruct (result_of (GetCidr ctx _)) as [[vpcID cidr]|e].
  2: { subst t. simpl. rewrite app_nil_r. split; [exact Hp3 | simpl; lia]. }
  rewrite bind_trace in Ht.
  match type of Ht with
  | context [trace_of (getSecurityGroup secName ?s')] =>
      destruct (getSecurityGroup_calls secName s') as (Hp4 & Hl4);
      set (t4 := trace_of (getSecurityGroup secName s')) in *
  end.
  assert (Hleaf : forall t5,
             filter isPoll t5 = [] -> List.length t5 <= 1 ->
             filter isPoll
               ([EvGetClusterID ctx (Ok clusterID)] ++
                [EvBuildInfraName ctx defaultSecurityGroupPostfix
                   DefaultAwsIdentifierLength (Ok secName)] ++ t3 ++ t4 ++ t5) = []
             /\ List.length
                  ([EvGetClusterID ctx (Ok clusterID)] ++
                   [EvBuildInfraName ctx defaultSecurityGroupPostfix
                      DefaultAwsIdentifierLength (Ok secName)] ++ t3 ++ t4 ++ t5) <= 6).
  { intros t5 Hp5 Hl5. split.
    - simpl. now rewrite !filter_app, Hp3, Hp4, Hp5.
    - simpl. rewrite !length_app. lia. }
  destruct (result_of (getSecurityGroup secName _)) as [[sg|]|e].
  - destruct (existsb _ (IpPermissions sg)).
    + subst t. apply Hleaf; [reflexivity | simpl; lia].
    + rewrite bind_trace, call_trace in Ht. subst t.
      destruct (result_of (call (AuthorizeSecurityGroupIngress _) _ _));
        (apply Hleaf; [reflexivity | simpl; lia]).
  - rewrite bind_trace, call_trace in Ht. subst t.
    destruct (result_of (call (CreateSecurityGroup _) _ _));
      (apply Hleaf; [reflexivity | simpl; lia]).
  - subst t. apply Hleaf; [reflexivity | simpl; lia].
Qed.

(** X10.  Every error an exported operation returns carries a description
    written in the file: it is made by [errorUtil.New] or it is a collaborator's
    error inside [errorUtil.Wrap].  No error of the provider, of the cluster
    client or of the poll reaches the caller bare. *)
Theorem errors_are_described (ctx : Context) (s : St) :
  (forall e, result_of (SetupSecurityGroup ctx s) = Err e -> described e = true)
  /\ (forall e, result_of (GetCidr ctx s) = Err e -> described e = true)
  /\ (forall e, result_of (GetVPCSubnets ctx s) = Err e -> described e = true)
  /\ (forall e, result_of (GetAllSubnetIDS ctx s) = Err e -> described e = true)
  /\ (forall e, result_of (GetPrivateSubnetIDS ctx s) = Err e -> described e = true).
Proof.
  assert (Hcidr : forall s' e, result_of (GetCidr ctx s') = Err e -> described e = true).
  { intros s' e. rewrite GetCidr_run. unfold result_of at 1. simpl.
    destruct (result_of (getVpc ctx s')) as [[vpc|]|e1]; intros [= <-]; reflexivity. }
  assert (Hsubs : forall s' e, result_of (GetVPCSubnets ctx s') = Err e ->
                               described e = true).
  { intros s' e. unfold GetVPCSubnets. rewrite bind_result.
    destruct (result_of (getSubnets s')) as [subs|e1]; [|intros [= <-]; reflexivity].
    rewrite bind_result.
    destruct (result_of (getVpc ctx _)) as [[vpc|]|e1];
      [|intros [= <-]; reflexivity..].
    destruct (GetVPCSubnets_loop vpc subs); [intros [= <-]; reflexivity | discriminate]. }
  split; [|split; [apply Hcidr|split; [apply Hsubs|split]]].
  - intros e. unfold SetupSecurityGroup. rewrite bind_result.
    destruct (result_of (call (GetClusterID ctx) _ s)) as [clusterID|e1];
      [|intros [= <-]; reflexivity].
    rewrite bind_result.
    destruct (result_of (call (BuildInfraName ctx _ _) _ _)) as [secName|e1];
      [|intros [= <-]; reflexivity].
    rewrite bind_result.
    destruct (result_of (GetCidr ctx _)) as [[vpcID cidr]|e1];
      [|intros [= <-]; reflexivity].
    rewrite bind_result.
    destruct (result_of (getSecurityGroup secName _)) as [[sg|]|e1];
      [| |intros [= <-]; reflexivity].
    + destruct (existsb _ (IpPermissions sg)); [discriminate|].
      rewrite bind_result.
      destruct (result_of (call (AuthorizeSecurityGroupIngress _) _ _));
        [discriminate | intros [= <-]; reflexivity].
    + rewrite bind_result.
      destruct (result_of (call (CreateSecurityGroup _) _ _));
        [discriminate | intros [= <-]; reflexivity].
  - intros e. unfold GetAllSubnetIDS. rewrite bind_result.
    destruct (result_of (GetVPCSubnets ctx s)) as [subs|e1];
      [|intros [= <-]; reflexivity].
    destruct (subIDs_loop subs); [intros [= <-]; reflexivity | discriminate].
  - intros e. unfold GetPrivateSubnetIDS. rewrite bind_result.
    destruct (result_of (GetVPCSubnets ctx s)) as [subs|e1];
      [|intros [= <-]; reflexivity].
    destruct (regexp.Compile regexpStr); [|intros [= <-]; reflexivity].
    destruct (subIDs_loop _); [intros [= <-]; reflexivity | discriminate].
Qed.

End SetupOutcome.

(* ===================================================================== *)
(** ** Giving up, and settling down *)
(* ===================================================================== *)

Section GivingUp.
Context {St : Type} `{EC2API St} `{Cluster St} `{Clock St}.

Lemma tickTrace_isPoll (interval : Duration)
  (replies : list (Result DescribeSubnetsOutput)) :
  forallb isPoll (tickTrace interval replies) = true.
Proof. induction replies as [|r replies IH]; [reflexivity | exact IH]. Qed.

Lemma listings_isPoll (replies : list (Result DescribeSubnetsOutput)) :
  forallb isPoll (map EvDescribeSubnets replies) = true.
Proof. induction replies as [|r replies IH]; [reflexivity | exact IH]. Qed.

Lemma pollTrace_isPoll (n : nat) (interval : Duration)
  (replies : list (Result DescribeSubnetsOutput)) :
  forallb isPoll (pollTrace n interval replies) = true.
Proof.
  destruct replies as [|r replies]; [reflexivity|].
  unfold pollTrace, restTrace. cbn [forallb isPoll andb].
  now rewrite forallb_app, tickTrace_isPoll, listings_isPoll.
Qed.

(** X11.  When the poll of [getSubnets] fails, [GetVPCSubnets] gives up
    there: the error is the poll's time-out with the description of the
    subnet step around it, whatever errors the listings had; the listing was
    tried [maxAttempts] times and failed every time, the last time right
    after the one before; five minutes were slept in all; and nothing but
    listings and waits happened: no VPC was listed and the cluster was not
    asked for its identity. *)
Theorem GetVPCSubnets_gives_up_after_the_poll (ctx : Context) (s : St) (err : error) :
  result_of (getSubnets s) = Err err ->
  err = ErrWaitTimeout
  /\ GetVPCSubnets ctx s
     = (Err (Wrap ErrWaitTimeout "error getting subnets"),
        state_of (getSubnets s), trace_of (getSubnets s))
  /\ answered s (trace_of (GetVPCSubnets ctx s)) (state_of (GetVPCSubnets ctx s))
  /\ (exists causes,
         List.length causes = maxAttempts
         /\ trace_of (GetVPCSubnets ctx s)
            = pollTrace budgetTicks (Second * 5)%Z (failed causes))
  /\ slept (trace_of (GetVPCSubnets ctx s)) = (Minute * 5)%Z
  /\ forallb isPoll (trace_of (GetVPCSubnets ctx s)) = true.
Proof.
  intros Herr.
  destruct (getSubnets_replies s) as (replies & Htr & Hans & Hout).
  destruct Hout as [(causes & out & _ & _ & Hres) | (causes & -> & Hlen & Hres)];
    [rewrite Hres in Herr; discriminate|].
  assert (Herr' : err = ErrWaitTimeout) by (rewrite Hres in Herr; now injection Herr).
  assert (Hrun : GetVPCSubnets ctx s
                 = (Err (Wrap ErrWaitTimeout "error getting subnets"),
                    state_of (getSubnets s), trace_of (getSubnets s))).
  { unfold GetVPCSubnets. rewrite bind_run, Hres. unfold ret. cbn [fst snd].
    unfold result_of, state_of, trace_of. cbn [fst snd]. now rewrite app_nil_r. }
  split; [exact Herr'|]. split; [exact Hrun|].
  assert (Htrace : trace_of (GetVPCSubnets ctx s) = trace_of (getSubnets s))
    by now rewrite Hrun.
  assert (Hstate : state_of (GetVPCSubnets ctx s) = state_of (getSubnets s))
    by now rewrite Hrun.
  rewrite Htrace, Hstate.
  split; [exact Hans|].
  rewrite Htr.
  split; [|split].
  - exists causes. split; [|reflexivity]. unfold failed in Hlen.
    now rewrite length_map in Hlen.
  - destruct (failed causes) as [|r replies] eqn:Hf; [discriminate Hlen|].
    unfold pollTrace.
    change (slept (EvDescribeSubnets r :: ?t)) with (slept t).
    rewrite slept_restTrace.
    assert (Hl : List.length replies = S budgetTicks)
      by (unfold maxAttempts in Hlen; simpl in Hlen; now injection Hlen).
    rewrite Hl. reflexivity.
  - apply pollTrace_isPoll.
Qed.

End GivingUp.

Section SettlingDown.
Import Fixture.

Lemma invocations_shift (ctx : Context) (n : nat) (c : Cloud) :
  invocations ctx (S n) c = invocations ctx n (state_of (SetupSecurityGroup ctx c)).
Proof.
  induction n as [|n IH]; [reflexivity|].
  change (invocations ctx (S (S n)) c)
    with (state_of (SetupSecurityGroup ctx (invocations ctx (S n) c))).
  now rewrite IH.
Qed.

Lemma invocations_converged (ctx : Context) (n : nat) (c : Cloud) :
  plan ctx c = Converged -> invocations ctx n c = c.
Proof.
  intros Hplan. induction n as [|n IH]; [reflexivity|].
  rewrite invocations_shift.
  pose proof (plan_run ctx c) as Hrun. rewrite Hplan in Hrun.
  destruct Hrun as (-> & _). exact IH.
Qed.

(** X12.  Against the fixture, [SetupSecurityGroup] settles in two
    invocations.  After a first invocation that succeeded, the provider's
    state after any number of invocations from two on is the state after two;
    from then on every invocation succeeds, makes no mutating call and leaves
    the state as it is. *)
Theorem SetupSecurityGroup_settles_in_two (ctx : Context) (c : Cloud) (n : nat) :
  result_of (SetupSecurityGroup ctx c) = Ok tt ->
  2 <= n ->
  invocations ctx n c = invocations ctx 2 c
  /\ result_of (SetupSecurityGroup ctx (invocations ctx n c)) = Ok tt
  /\ mutations (trace_of (SetupSecurityGroup ctx (invocations ctx n c))) = []
  /\ state_of (SetupSecurityGroup ctx (invocations ctx n c)) = invocations ctx n c.
Proof.
  intros Hok Hn.
  assert (Hsettled : exists c2, plan ctx c2 = Converged
                                /\ forall m, 2 <= m -> invocations ctx m c = c2).
  { pose proof (plan_run ctx c) as Hfirst.
    destruct (plan ctx c) as [| |input|input] eqn:Hplan.
    - destruct Hfirst as (_ & _ & Hfail). rewrite Hok in Hfail. discriminate.
    - exists c. split; [exact Hplan|]. intros m _.
      now apply invocations_converged.
    - destruct Hfirst as (Hstate & _).
      destruct (plan_after_create ctx c input Hplan) as (input' & Hplan').
      pose proof (plan_run ctx (createGroup input c)) as Hsecond.
      rewrite Hplan' in Hsecond. destruct Hsecond as (Hstate' & _).
      destruct (plan_after_authorize ctx _ input' Hplan') as (_ & Hplan'').
      exists (snd (authorize input' (createGroup input c))).
      split; [exact Hplan''|]. intros m Hm.
      destruct m as [|[|m]]; [lia | lia |].
      rewrite !invocations_shift, Hstate, Hstate'.
      now apply invocations_converged.
    - destruct Hfirst as (Hstate & _).
      destruct (plan_after_authorize ctx c input Hplan) as (_ & Hplan').
      exists (snd (authorize input c)). split; [exact Hplan'|]. intros m Hm.
      destruct m as [|m]; [lia|].
      rewrite invocations_shift, Hstate.
      now apply invocations_converged. }
  destruct Hsettled as (c2 & Hplan & Hall).
  rewrite (Hall n Hn), (Hall 2 (le_n 2)).
  pose proof (plan_run ctx c2) as Hrun. rewrite Hplan in Hrun.
  destruct Hrun as (Hstate & Hmut & Hres).
  split; [reflexivity|]. split; [exact Hres|]. split; [exact Hmut | exact Hstate].
Qed.

End SettlingDown.

(* ===================================================================== *)
(** ** The further theorems at work on the fixture *)
(* ===================================================================== *)

Section FurtherAtWork.
Import Fixture.

(** The three subnets of the cluster's VPC give their three identifiers. *)
Lemma GetAllSubnetIDS_one_per_subnet_witness :
  GetVPCSubnets background account
  = (Ok [privateA; publicA; privateTwice], account,
     trace_of (GetVPCSubnets background account))
  /\ GetAllSubnetIDS background account
     = (Ok ["subnet-a"; "subnet-b"; "subnet-c"], account,
        trace_of (GetVPCSubnets background account)).
Proof.
  assert (Hrun : GetVPCSubnets background account
                 = (Ok [privateA; publicA; privateTwice], account,
                    trace_of (GetVPCSubnets background account))) by reflexivity.
  split; [exact Hrun|].
  pose proof (GetAllSubnetIDS_one_per_subnet background account account
                [privateA; publicA; privateTwice]
                (trace_of (GetVPCSubnets background account))) as Hthm.
  exact (proj1 (Hthm Hrun)).
Defined.

(** Of two VPCs with the cluster's tag value, identifier and range are those
    of the later one. *)
Lemma GetCidr_of_last_match_witness :
  DescribeVpcs twins = (Ok {| Vpcs := [barVpc; fooVpc; barTwin] |}, twins)
  /\ GetClusterID background twins = (Ok "bar", twins)
  /\ result_of (GetCidr background twins) = Ok ("vpc-3", "10.2.0.0/16").
Proof.
  split; [reflexivity|]. split; [reflexivity|].
  pose proof (GetCidr_of_last_match background twins twins twins
                {| Vpcs := [barVpc; fooVpc; barTwin] |} "bar") as Hthm.
  apply (proj1 (Hthm eq_refl eq_refl) "vpc-3" "10.2.0.0/16").
  exists [barVpc; fooVpc], barTwin, []. repeat split.
Defined.

(** Of two groups with the derived name the earlier one is found. *)
Lemma getSecurityGroup_first_match_witness :
  let both := withGroups [barGroup []; barGroup [Some (ipPermission "10.0.0.0/16")]]
                account in
  DescribeSecurityGroups both
  = (Ok {| SecurityGroups :=
             [barGroup []; barGroup [Some (ipPermission "10.0.0.0/16")]] |}, both)
  /\ result_of (getSecurityGroup "bar-security-group" both) = Ok (Some (barGroup [])).
Proof.
  intros both. split; [reflexivity|].
  pose proof (getSecurityGroup_first_match "bar-security-group" both both
                {| SecurityGroups :=
                     [barGroup []; barGroup [Some (ipPermission "10.0.0.0/16")]] |})
    as Hthm.
  apply (proj1 (Hthm eq_refl) (barGroup [])).
  exists [], [barGroup [Some (ipPermission "10.0.0.0/16")]].
  split; [reflexivity|]. split; [reflexivity|]. intros g [].
Defined.

(** The private identifiers of the account are among all its identifiers. *)
Lemma private_ids_among_all_ids_witness :
  GetVPCSubnets background account
  = (Ok [privateA; publicA; privateTwice], account,
     trace_of (GetVPCSubnets background account))
  /\ exists allIDs,
       result_of (GetAllSubnetIDS background account) = Ok allIDs
       /\ incl ["subnet-a"; "subnet-c"; "subnet-c"] allIDs.
Proof.
  assert (Hrun : GetVPCSubnets background account
                 = (Ok [privateA; publicA; privateTwice], account,
                    trace_of (GetVPCSubnets background account))) by reflexivity.
  split; [exact Hrun|].
  pose proof (private_ids_among_all_ids background account account
                [privateA; publicA; privateTwice]
                (trace_of (GetVPCSubnets background account))) as Hthm.
  destruct (Hthm Hrun) as (allIDs & Hall & Hincl & _).
  exists allIDs. split; [exact Hall|]. apply Hincl. reflexivity.
Defined.

(** While the credentials are not honoured the listing of the VPCs fails:
    it is the last call, and its error is the cause of the result. *)
Lemma SetupSecurityGroup_fails_fast_witness :
  trace_of (SetupSecurityGroup background (notYet Minute account))
  = [EvGetClusterID background (Ok "bar");
     EvBuildInfraName background defaultSecurityGroupPostfix 40 (Ok "bar-security-group")]
    ++ EvDescribeVpcs (Err AuthFailure) :: []
  /\ exists e,
       result_of (SetupSecurityGroup background (notYet Minute account)) = Err e
       /\ Cause e = AuthFailure.
Proof.
  split; [reflexivity|].
  pose proof (proj1 (SetupSecurityGroup_fails_fast background (notYet Minute account)))
    as Hthm.
  exact (proj2 (Hthm
                  [EvGetClusterID background (Ok "bar");
                   EvBuildInfraName background defaultSecurityGroupPostfix 40
                     (Ok "bar-security-group")]
                  (EvDescribeVpcs (Err AuthFailure)) [] AuthFailure eq_refl eq_refl)).
Defined.

(** The create call of the first invocation went through, and so did the
    invocation. *)
Lemma SetupSecurityGroup_result_follows_call_witness :
  In (EvCreateSecurityGroup (createInput "bar" "bar-security-group" "vpc-2") (Ok tt))
     (mutations (trace_of (SetupSecurityGroup background account)))
  /\ result_of (SetupSecurityGroup background account) = Ok tt.
Proof.
  assert (Hin : In (EvCreateSecurityGroup
                      (createInput "bar" "bar-security-group" "vpc-2") (Ok tt))
                   (mutations (trace_of (SetupSecurityGroup background account))))
    by (left; reflexivity).
  split; [exact Hin|].
  pose proof (SetupSecurityGroup_result_follows_call background account
                (EvCreateSecurityGroup
                   (createInput "bar" "bar-security-group" "vpc-2") (Ok tt))) as Hthm.
  exact (proj1 (proj1 (Hthm Hin)) eq_refl).
Defined.

(** Credentials that take ten minutes to propagate outlast the poll. *)
Lemma GetVPCSubnets_gives_up_after_the_poll_witness :
  result_of (getSubnets (notYet (Minute * 10)%Z account)) = Err ErrWaitTimeout
  /\ result_of (GetVPCSubnets background (notYet (Minute * 10)%Z account))
     = Err (Wrap ErrWaitTimeout "error getting subnets")
  /\ slept (trace_of (GetVPCSubnets background (notYet (Minute * 10)%Z account)))
     = (Minute * 5)%Z
  /\ exists causes,
       List.length causes = 62
       /\ trace_of (GetVPCSubnets background (notYet (Minute * 10)%Z account))
          = pollTrace 60 (Second * 5)%Z (failed causes).
Proof.
  assert (Herr : result_of (getSubnets (notYet (Minute * 10)%Z account))
                 = Err ErrWaitTimeout) by (vm_compute; reflexivity).
  split; [exact Herr|].
  pose proof (GetVPCSubnets_gives_up_after_the_poll background
                (notYet (Minute * 10)%Z account) ErrWaitTimeout) as Hthm.
  destruct (Hthm Herr) as (_ & Hrun & _ & Hcauses & Hslept & _).
  split; [exact (f_equal (fun o => result_of o) Hrun)|].
  split; [exact Hslept | exact Hcauses].
Defined.

(** From the empty account: create, authorize, and then nothing more. *)
Lemma SetupSecurityGroup_settles_in_two_witness :
  result_of (SetupSecurityGroup background account) = Ok tt
  /\ 2 <= 5
  /\ invocations background 5 account = invocations background 2 account
  /\ groups (invocations background 5 account)
     = [barGroup [Some (ipPermission "10.0.0.0/16")]]
  /\ mutations (trace_of (SetupSecurityGroup background
                            (invocations background 5 account))) = [].
Proof.
  assert (Hn : 2 <= 5) by lia.
  split; [reflexivity|]. split; [exact Hn|].
  pose proof (SetupSecurityGroup_settles_in_two background account 5) as Hthm.
  destruct (Hthm eq_refl Hn) as (Hsame & _ & Hmut & _).
  split; [exact Hsame|]. split; [|exact Hmut].
  rewrite Hsame. reflexivity.
Defined.

End FurtherAtWork.
